(** * Carousel slider: the slide-index state machine, its auto-play timer
      and the swipe gestures

    A shallow embedding of [carousel/core.js] (class [Carousel]) and
    [carousel/swipe.js] (class [SwipeCarousel]).

    - JavaScript numbers that hold slide indices, pixel coordinates and the
      swipe threshold are integers here ([Z]); the remainder operator [%] is
      [Z.rem], which truncates towards zero and takes the sign of the
      dividend, as in JavaScript. JavaScript's numbers are doubles: its [+]
      and [%] are those of [Z] as long as the operands and the result are
      integers of at most 2^53 in absolute value ([exact_integer]); what is
      stated of an arbitrary target carries that bound.
    - A DOM element is reduced to what the carousel reads and writes: the
      classes [indicator] and [active], the [data-slide-to] attribute, and
      how many of its descendants have the class [indicator].
    - The methods that can raise run in a state monad whose state survives
      an exception: a JavaScript exception does not roll back the
      assignments made before it. *)

From Stdlib Require Import ZArith String.
From stdpp Require Import base list list_numbers.

Local Open Scope string_scope.
Local Open Scope Z_scope.

(** ** Exceptions and the state monad of a method body *)

(** A JavaScript error object, reduced to its [name] property. *)
Record JsError := { name : string }.

(** Raised by the constructor, and by the runtime when a property of
    [undefined] or [null] is read. *)
Definition TypeError : JsError := {| name := "TypeError" |}.

Inductive completion (A : Type) : Type :=
| Normal (a : A)
| Throw (e : JsError).
Arguments Normal {A} a.
Arguments Throw {A} e.

Definition M (S A : Type) : Type := S → S * completion A.

#[export] Instance M_ret {S} : MRet (M S) := λ A a s, (s, Normal a).

#[export] Instance M_bind {S} : MBind (M S) := λ A B f m s,
  match m s with
  | (s1, Normal a) => f a s1
  | (s1, Throw e) => (s1, Throw e)
  end.

Definition get {S} : M S S := λ s, (s, Normal s).
Definition modify {S} (f : S → S) : M S unit := λ s, (f s, Normal tt).
Definition throw {S A} (e : JsError) : M S A := λ s, (s, Throw e).

(** Reading a property of [o]: a [TypeError] when [o] is [undefined] or
    [null]. *)
Definition deref {S A} (o : option A) : M S A :=
  match o with
  | Some a => mret a
  | None => throw TypeError
  end.

(** ** Numbers *)

(** The integers a JavaScript number holds exactly, together with every
    integer between them. A sum of two of them that is one of them is
    computed exactly, and so is every remainder of two of them. *)
Definition exact_integer (z : Z) : Prop := Z.abs z ≤ 2 ^ 53.

(** ** DOM elements *)

Record Element := {
  cls_indicator : bool;   (* classList.contains('indicator') *)
  cls_active : bool;      (* classList.contains('active') *)
  slideTo : Z;            (* +dataset.slideTo, for attributes that hold an
                             integer *)
  inner_indicators : nat  (* how many descendants have the class indicator *)
}.

Definition classList_add_active (e : Element) : Element :=
  {| cls_indicator := cls_indicator e; cls_active := true; slideTo := slideTo e;
     inner_indicators := inner_indicators e |}.

Definition classList_remove_active (e : Element) : Element :=
  {| cls_indicator := cls_indicator e; cls_active := false; slideTo := slideTo e;
     inner_indicators := inner_indicators e |}.

(** [l[i]] on a NodeList or HTMLCollection: [undefined] outside
    [0 .. length-1]. *)
Definition item {A} (l : list A) (i : Z) : option A :=
  if i <? 0 then None else l !! Z.to_nat i.

(** The element at index [i] replaced by its mutated version. *)
Definition set_item {A} (l : list A) (i : Z) (a : A) : list A :=
  <[Z.to_nat i := a]> l.

(** The private field [#indicatorsContainer] together with the element
    [#indicators-container] of the page it can point to. *)
Inductive IndicatorsRef :=
| IndNull (in_page : option (list Element))
    (* the field is null; the page may already hold such an element *)
| IndAttached (children : list Element).
    (* the field references the element, which is inside the container *)

(** ** The carousel object and the host's interval table *)

Record Carousel := {
  slides : list Element;
  TIMER_INTERVAL : Z;
  isPlaying : bool;
  pauseOnHover : bool;
  SLIDES_COUNT : Z;
  currentSlide : Z;
  timerId : option positive;
  indicatorsContainer : IndicatorsRef;
  pauseIcon : option string;    (* null, or the icon's style.opacity *)
  playIcon : option string;
  (* host: the intervals this carousel scheduled that are still active, and
     the next handle setInterval hands out (handles are integers > 0) *)
  timers : list positive;
  next_timer : positive
}.

Definition set_slides (v : list Element) (c : Carousel) : Carousel :=
  {| slides := v; TIMER_INTERVAL := TIMER_INTERVAL c; isPlaying := isPlaying c;
     pauseOnHover := pauseOnHover c; SLIDES_COUNT := SLIDES_COUNT c;
     currentSlide := currentSlide c; timerId := timerId c;
     indicatorsContainer := indicatorsContainer c; pauseIcon := pauseIcon c;
     playIcon := playIcon c; timers := timers c; next_timer := next_timer c |}.

Definition set_isPlaying (v : bool) (c : Carousel) : Carousel :=
  {| slides := slides c; TIMER_INTERVAL := TIMER_INTERVAL c; isPlaying := v;
     pauseOnHover := pauseOnHover c; SLIDES_COUNT := SLIDES_COUNT c;
     currentSlide := currentSlide c; timerId := timerId c;
     indicatorsContainer := indicatorsContainer c; pauseIcon := pauseIcon c;
     playIcon := playIcon c; timers := timers c; next_timer := next_timer c |}.

Definition set_currentSlide (v : Z) (c : Carousel) : Carousel :=
  {| slides := slides c; TIMER_INTERVAL := TIMER_INTERVAL c; isPlaying := isPlaying c;
     pauseOnHover := pauseOnHover c; SLIDES_COUNT := SLIDES_COUNT c;
     currentSlide := v; timerId := timerId c;
     indicatorsContainer := indicatorsContainer c; pauseIcon := pauseIcon c;
     playIcon := playIcon c; timers := timers c; next_timer := next_timer c |}.

Definition set_timerId (v : option positive) (c : Carousel) : Carousel :=
  {| slides := slides c; TIMER_INTERVAL := TIMER_INTERVAL c; isPlaying := isPlaying c;
     pauseOnHover := pauseOnHover c; SLIDES_COUNT := SLIDES_COUNT c;
     currentSlide := currentSlide c; timerId := v;
     indicatorsContainer := indicatorsContainer c; pauseIcon := pauseIcon c;
     playIcon := playIcon c; timers := timers c; next_timer := next_timer c |}.

Definition set_indicatorsContainer (v : IndicatorsRef) (c : Carousel) : Carousel :=
  {| slides := slides c; TIMER_INTERVAL := TIMER_INTERVAL c; isPlaying := isPlaying c;
     pauseOnHover := pauseOnHover c; SLIDES_COUNT := SLIDES_COUNT c;
     currentSlide := currentSlide c; timerId := timerId c;
     indicatorsContainer := v; pauseIcon := pauseIcon c;
     playIcon := playIcon c; timers := timers c; next_timer := next_timer c |}.

Definition set_icons (pa pl : option string) (c : Carousel) : Carousel :=
  {| slides := slides c; TIMER_INTERVAL := TIMER_INTERVAL c; isPlaying := isPlaying c;
     pauseOnHover := pauseOnHover c; SLIDES_COUNT := SLIDES_COUNT c;
     currentSlide := currentSlide c; timerId := timerId c;
     indicatorsContainer := indicatorsContainer c; pauseIcon := pa;
     playIcon := pl; timers := timers c; next_timer := next_timer c |}.

Definition set_host (ts : list positive) (nx : positive) (c : Carousel) : Carousel :=
  {| slides := slides c; TIMER_INTERVAL := TIMER_INTERVAL c; isPlaying := isPlaying c;
     pauseOnHover := pauseOnHover c; SLIDES_COUNT := SLIDES_COUNT c;
     currentSlide := currentSlide c; timerId := timerId c;
     indicatorsContainer := indicatorsContainer c; pauseIcon := pauseIcon c;
     playIcon := playIcon c; timers := ts; next_timer := nx |}.

(** ** Host timer functions *)

(** [clearInterval(id)]: the interval is removed from the table. *)
Definition clearInterval (id : positive) (c : Carousel) : Carousel :=
  set_host (filter (λ t, t ≠ id) (timers c)) (next_timer c) c.

(** [setInterval(callback, TIMER_INTERVAL)]: a fresh handle is scheduled and
    returned. The only callback the carousel schedules is the one of
    [#startTimer]. The numbers are the model's names for the intervals: the
    host of a page may hand out any handle that is not in use. *)
Definition setInterval (c : Carousel) : positive * Carousel :=
  (next_timer c, set_host (timers c ++ [next_timer c]) (Pos.succ (next_timer c)) c).

(** ** Construction *)

Record Settings := {
  containerId : string;
  slideId : string;
  interval : Z;
  s_isPlaying : bool;
  s_pauseOnHover : bool
}.

Definition DEFAULT_SETTINGS : Settings :=
  {| containerId := "#carousel"; slideId := ".slide"; interval := 5000;
     s_isPlaying := true; s_pauseOnHover := true |}.

(** The [options] argument: every key may be absent. *)
Record Options := {
  o_containerId : option string;
  o_slideId : option string;
  o_interval : option Z;
  o_isPlaying : option bool;
  o_pauseOnHover : option bool
}.

Definition no_options : Options :=
  {| o_containerId := None; o_slideId := None; o_interval := None;
     o_isPlaying := None; o_pauseOnHover := None |}.

(** [{ ...DEFAULT_SETTINGS, ...options }] *)
Definition merge_settings (d : Settings) (o : Options) : Settings :=
  {| containerId := default (containerId d) (o_containerId o);
     slideId := default (slideId d) (o_slideId o);
     interval := default (interval d) (o_interval o);
     s_isPlaying := default (s_isPlaying d) (o_isPlaying o);
     s_pauseOnHover := default (s_pauseOnHover d) (o_pauseOnHover o) |}.

(** A container element of the page: what [querySelectorAll] returns in it
    for a selector, and the children of its [#indicators-container] element
    when the page already has one. *)
Record Container := {
  querySelectorAll : string → list Element;
  page_indicators : option (list Element)
}.

(** [document.querySelector]: the container a selector finds, if any. *)
Definition Document : Type := string → option Container.

Definition constructor (options : Options) (document : Document)
  : JsError + Carousel :=
  let settings := merge_settings DEFAULT_SETTINGS options in
  match document (containerId settings) with
  | None => inl TypeError
  | Some container =>
      let sl := querySelectorAll container (slideId settings) in
      inr {| slides := sl;
             TIMER_INTERVAL := interval settings;
             isPlaying := s_isPlaying settings;
             pauseOnHover := s_pauseOnHover settings;
             SLIDES_COUNT := Z.of_nat (length sl);
             currentSlide := 0;
             timerId := None;
             indicatorsContainer := IndNull (page_indicators container);
             pauseIcon := None;
             playIcon := None;
             timers := [];
             next_timer := 1%positive |}
  end.

(** ** Methods of [Carousel] *)

(** [this.#indicatorsContainer.children]: reading it raises when the field
    is null. *)
Definition indicator_children (c : Carousel) : option (list Element) :=
  match indicatorsContainer c with
  | IndNull _ => None
  | IndAttached ch => Some ch
  end.

Definition set_indicator (i : Z) (e : Element) (c : Carousel) : Carousel :=
  match indicatorsContainer c with
  | IndNull _ => c
  | IndAttached ch => set_indicatorsContainer (IndAttached (set_item ch i e)) c
  end.

(** [#startTimer] *)
Definition startTimer (c : Carousel) : Carousel :=
  let c1 := match timerId c with
            | Some id => clearInterval id c
            | None => c
            end in
  let '(id, c2) := setInterval c1 in
  set_timerId (Some id) c2.

(** [pause()] *)
Definition pause (c : Carousel) : Carousel :=
  let c1 := match timerId c with
            | Some id => set_timerId None (clearInterval id c)
            | None => c
            end in
  set_isPlaying false c1.

(** [play()] *)
Definition play (c : Carousel) : Carousel :=
  set_isPlaying true (startTimer c).

(** [#gotoNth(n)]. With [SLIDES_COUNT] at 0 the remainder of JavaScript is
    NaN, where [Z.rem] gives its first argument; the assignment is not
    reached then, the slide list being empty ([reachable_empty] below).
    The sum and the remainder are those of the code when [n] and
    [n + SLIDES_COUNT] are exact integers ([exact_integer]), as they are
    for the steps of [next()], [prev()] and the timer and for the indicators
    the carousel creates; beyond, JavaScript rounds the sum. *)
Definition gotoNth (n : Z) : M Carousel unit :=
  c ← get;
  old ← deref (item (slides c) (currentSlide c));
  modify (set_slides (set_item (slides c) (currentSlide c) (classList_remove_active old)));;
  ch ← deref (indicator_children c);
  oldInd ← deref (item ch (currentSlide c));
  modify (set_indicator (currentSlide c) (classList_remove_active oldInd));;
  modify (set_currentSlide (Z.rem (n + SLIDES_COUNT c) (SLIDES_COUNT c)));;
  c ← get;
  new ← deref (item (slides c) (currentSlide c));
  modify (set_slides (set_item (slides c) (currentSlide c) (classList_add_active new)));;
  ch ← deref (indicator_children c);
  newInd ← deref (item ch (currentSlide c));
  modify (set_indicator (currentSlide c) (classList_add_active newInd)).

(** [next()] *)
Definition next : M Carousel unit :=
  modify pause;;
  c ← get;
  gotoNth (currentSlide c + 1).

(** [prev()] *)
Definition prev : M Carousel unit :=
  modify pause;;
  c ← get;
  gotoNth (currentSlide c - 1).

(** [pausePlay()] *)
Definition pausePlay : M Carousel unit :=
  c ← get;
  if isPlaying c then
    modify pause;;
    c ← get;
    _ ← deref (pauseIcon c);
    modify (λ c, set_icons (Some "0") (playIcon c) c);;
    _ ← deref (playIcon c);
    modify (λ c, set_icons (pauseIcon c) (Some "1") c)
  else
    modify play;;
    c ← get;
    _ ← deref (pauseIcon c);
    modify (λ c, set_icons (Some "1") (playIcon c) c);;
    _ ← deref (playIcon c);
    modify (λ c, set_icons (pauseIcon c) (Some "0") c).

(** [#indicatorClick(e)], on [e.target]. The targets of the model carry an
    integer as [data-slide-to]; with an attribute that is absent, not a
    number or not an integer the code pauses and then raises in
    [#gotoNth], the new index naming no slide. *)
Definition indicatorClick (target : option Element) : M Carousel unit :=
  match target with
  | Some t =>
      if cls_indicator t then
        modify pause;;
        gotoNth (slideTo t)
      else mret tt
  | None => mret tt
  end.

Definition prevClickHandler : M Carousel unit := prev.
Definition nextClickHandler : M Carousel unit := next.
Definition pauseClickHandler : M Carousel unit := pausePlay.

(** [#keydownHandler(e)], on [e.code]. *)
Definition keydownHandler (code : string) : M Carousel unit :=
  if String.eqb code "ArrowLeft" then prev
  else if String.eqb code "ArrowRight" then next
  else if String.eqb code "Space" then pausePlay
  else mret tt.

(** [#mouseenterHandler] *)
Definition mouseenterHandler (c : Carousel) : Carousel :=
  if pauseOnHover c && isPlaying c then pause c else c.

(** [#mouseleaveHandler] *)
Definition mouseleaveHandler (c : Carousel) : Carousel :=
  if pauseOnHover c && negb (isPlaying c) then play c else c.

(** The callback [#startTimer] hands to [setInterval]. *)
Definition timer_callback : M Carousel unit :=
  c ← get;
  gotoNth (currentSlide c + 1).

(** [#createControls]: the buttons carry no state of their own; the two
    icons are created with their opacity. *)
Definition createControls (c : Carousel) : Carousel :=
  set_icons (Some (if isPlaying c then "1" else "0"))
            (Some (if isPlaying c then "0" else "1")) c.

(** The elements [querySelectorAll('.indicator')] finds in the subtree of
    [e]: [e] itself when it has the class, then its descendants that have
    it. *)
Definition matched (e : Element) : nat :=
  ((if cls_indicator e then 1 else 0) + inner_indicators e)%nat.

(** The [forEach] over the indicators found in an existing container, as
    seen on the children [l] of the container, [idx] elements having been
    visited before. [querySelectorAll] lists the descendants of class
    [indicator] in document order, a child before its own descendants: the
    first of them becomes active, every later one inactive. A child without
    the class is not visited; the descendants a child has are visited
    between it and the next child. *)
Fixpoint mark_first (idx : nat) (l : list Element) : list Element :=
  match l with
  | [] => []
  | e :: r =>
      (if cls_indicator e then
         if Nat.eqb idx 0 then classList_add_active e
         else classList_remove_active e
       else e)
        :: mark_first (idx + matched e) r
  end.

(** The [for] loop that builds one indicator per slide. *)
Definition new_indicators (count : Z) : list Element :=
  (λ i, {| cls_indicator := true; cls_active := i =? 0; slideTo := i;
           inner_indicators := 0 |})
    <$> seqZ 0 count.

(** [#createIndicators] *)
Definition createIndicators (c : Carousel) : Carousel :=
  match indicatorsContainer c with
  | IndNull (Some existing) | IndAttached existing =>
      set_indicatorsContainer (IndAttached (mark_first 0 existing)) c
  | IndNull None =>
      set_indicatorsContainer (IndAttached (new_indicators (SLIDES_COUNT c))) c
  end.

(** [init()]; [#setListeners] only registers the handlers above. *)
Definition init (c : Carousel) : Carousel :=
  let c1 := createIndicators (createControls c) in
  if isPlaying c1 then startTimer c1 else c1.

(** ** Class [SwipeCarousel] *)

Record SwipeCarousel := {
  super : Carousel;        (* the inherited [Carousel] part *)
  startX : Z;
  endX : Z;
  swipeThreshold : Z
}.

Definition set_super (c : Carousel) (s : SwipeCarousel) : SwipeCarousel :=
  {| super := c; startX := startX s; endX := endX s;
     swipeThreshold := swipeThreshold s |}.

Definition set_startX (x : Z) (s : SwipeCarousel) : SwipeCarousel :=
  {| super := super s; startX := x; endX := endX s;
     swipeThreshold := swipeThreshold s |}.

Definition set_endX (x : Z) (s : SwipeCarousel) : SwipeCarousel :=
  {| super := super s; startX := startX s; endX := x;
     swipeThreshold := swipeThreshold s |}.

(** A call of an inherited method on [this]. *)
Definition inherited {A} (m : M Carousel A) : M SwipeCarousel A := λ s,
  let '(c, r) := m (super s) in (set_super c s, r).

Definition swipe_constructor (options : Options) (document : Document)
  : JsError + SwipeCarousel :=
  match constructor options document with
  | inl e => inl e
  | inr c => inr {| super := c; startX := 0; endX := 0; swipeThreshold := 100 |}
  end.

(** [init()] of [SwipeCarousel]: [super.init()], then the swipe listeners
    are registered. *)
Definition swipe_init (s : SwipeCarousel) : SwipeCarousel :=
  set_super (init (super s)) s.

(** [#handleSwipe] *)
Definition handleSwipe : M SwipeCarousel unit :=
  s ← get;
  let difference := startX s - endX s in
  if Z.abs difference <? swipeThreshold s then mret tt
  else if 0 <? difference then inherited next
  else inherited prev.

(** [#touchStartHandler] and [#mouseDownHandler], on the event's [pageX]. *)
Definition touchStartHandler (pageX : Z) : M SwipeCarousel unit :=
  modify (set_startX pageX).

Definition mouseDownHandler (pageX : Z) : M SwipeCarousel unit :=
  modify (set_startX pageX).

(** [#touchEndHandler] and [#mouseUpHandler] *)
Definition touchEndHandler (pageX : Z) : M SwipeCarousel unit :=
  modify (set_endX pageX);;
  handleSwipe.

Definition mouseUpHandler (pageX : Z) : M SwipeCarousel unit :=
  modify (set_endX pageX);;
  handleSwipe.

(** ** The host event loop *)

(** The interval [id] fires: its callback runs if the interval is still
    scheduled. *)
Definition fire (id : positive) : M Carousel unit :=
  c ← get;
  if bool_decide (id ∈ timers c) then timer_callback else mret tt.

(** One period elapses: every interval scheduled at that moment fires once.
    An exception in a callback is reported by the host and the loop goes
    on. *)
Definition tick (c : Carousel) : Carousel :=
  foldl (λ c id, (fire id c).1) c (timers c).

(** What can happen to a [Carousel]: a call of a public method, or an event
    reaching one of its handlers. *)
Inductive Event :=
| CallInit | CallNext | CallPrev | CallPause | CallPlay | CallPausePlay
| PrevClick | NextClick | PauseClick
| IndicatorsClick (target : option Element)
| Keydown (code : string)
| Mouseenter | Mouseleave
| TimerFires (id : positive).

Definition handle (ev : Event) : M Carousel unit :=
  match ev with
  | CallInit => modify init
  | CallNext => next
  | CallPrev => prev
  | CallPause => modify pause
  | CallPlay => modify play
  | CallPausePlay => pausePlay
  | PrevClick => prevClickHandler
  | NextClick => nextClickHandler
  | PauseClick => pauseClickHandler
  | IndicatorsClick target => indicatorClick target
  | Keydown code => keydownHandler code
  | Mouseenter => modify mouseenterHandler
  | Mouseleave => modify mouseleaveHandler
  | TimerFires id => fire id
  end.

(** The same for a [SwipeCarousel], with the pointer events on top. *)
Inductive SwipeEvent :=
| Base (ev : Event)
| Touchstart (pageX : Z) | Touchend (pageX : Z)
| Mousedown (pageX : Z) | Mouseup (pageX : Z).

Definition swipe_handle (ev : SwipeEvent) : M SwipeCarousel unit :=
  match ev with
  | Base CallInit => modify swipe_init
  | Base ev => inherited (handle ev)
  | Touchstart x => touchStartHandler x
  | Touchend x => touchEndHandler x
  | Mousedown x => mouseDownHandler x
  | Mouseup x => mouseUpHandler x
  end.

(** A run of the event loop: the events are handled one after the other;
    an exception ends the handler that raised it, not the run. *)
Definition run (evs : list SwipeEvent) (s : SwipeCarousel) : SwipeCarousel :=
  foldl (λ s ev, (swipe_handle ev s).1) s evs.

(** The states a carousel built by the constructor can be in. The handlers
    are registered by [init()]; runs in which an event reaches a handler
    earlier are included as well, so that what holds of every run holds of
    those the page can produce. *)
Definition reachable (s : SwipeCarousel) : Prop :=
  ∃ options document s0 evs,
    swipe_constructor options document = inr s0 ∧ s = run evs s0.

(** ** Words of the specification *)

(** Swipe classification as the specification words it. *)
Inductive SwipeClass := NoSwipe | Forward | Backward.

Definition classify (startX endX thresholdPx : Z) : SwipeClass :=
  let diff := startX - endX in
  if Z.abs diff <? thresholdPx then NoSwipe
  else if 0 <? diff then Forward
  else Backward.

(** The error kind the specification names for an empty slide set. *)
Definition InvalidStateError : JsError := {| name := "InvalidStateError" |}.

(** ** Example pages *)

Definition slide_el (active : bool) : Element :=
  {| cls_indicator := false; cls_active := active; slideTo := 0;
     inner_indicators := 0 |}.

(** A page whose [#carousel] container holds [n] elements of class [slide],
    the first one active, and no indicators. *)
Definition page (n : nat) : Document := λ sel,
  if String.eqb sel "#carousel" then
    Some {| querySelectorAll := λ sel',
              if String.eqb sel' ".slide"
              then (λ i, slide_el (Nat.eqb i 0)) <$> seq 0 n else [];
            page_indicators := None |}
  else None.

(** The carousel of [main.js] on such a page, as the constructor leaves it
    and after [init()]. *)
Definition fresh (n : nat) : SwipeCarousel :=
  {| super := {| slides := (λ i, slide_el (Nat.eqb i 0)) <$> seq 0 n;
                 TIMER_INTERVAL := 5000; isPlaying := true; pauseOnHover := true;
                 SLIDES_COUNT := Z.of_nat n; currentSlide := 0; timerId := None;
                 indicatorsContainer := IndNull None; pauseIcon := None;
                 playIcon := None; timers := []; next_timer := 1%positive |};
     startX := 0; endX := 0; swipeThreshold := 100 |}.

Definition started (n : nat) : SwipeCarousel := swipe_init (fresh n).

(** A page whose [#carousel] holds three slides, the first one active, and
    an [#indicators-container] with two indicators only. *)
Definition short_page : Document := λ sel,
  if String.eqb sel "#carousel" then
    Some {| querySelectorAll := λ sel',
              if String.eqb sel' ".slide"
              then [slide_el true; slide_el false; slide_el false] else [];
            page_indicators :=
              Some [ {| cls_indicator := true; cls_active := true; slideTo := 0;
                        inner_indicators := 0 |};
                     {| cls_indicator := true; cls_active := false; slideTo := 1;
                        inner_indicators := 0 |} ] |}
  else None.

(** ** Predicates on states *)

(** The fields of the play/pause machinery and the shape of the slide list. *)
Record same_control (c c' : Carousel) : Prop := {
  sc_isPlaying : isPlaying c' = isPlaying c;
  sc_timerId : timerId c' = timerId c;
  sc_timers : timers c' = timers c;
  sc_next_timer : next_timer c' = next_timer c;
  sc_pauseOnHover : pauseOnHover c' = pauseOnHover c;
  sc_SLIDES_COUNT : SLIDES_COUNT c' = SLIDES_COUNT c;
  sc_TIMER_INTERVAL : TIMER_INTERVAL c' = TIMER_INTERVAL c;
  sc_pauseIcon : pauseIcon c' = pauseIcon c;
  sc_playIcon : playIcon c' = playIcon c;
  sc_length : length (slides c') = length (slides c)
}.

(** A carousel in working order: the count is the number of slides, there
    is at least one, the index names one, and every slide has its
    indicator. *)
Record in_order (c : Carousel) : Prop := {
  io_count : SLIDES_COUNT c = Z.of_nat (length (slides c));
  io_nonempty : 0 < SLIDES_COUNT c;
  io_index : 0 ≤ currentSlide c < SLIDES_COUNT c;
  io_indicators : ∃ ch, indicatorsContainer c = IndAttached ch ∧
                        (length (slides c) ≤ length ch)%nat
}.

(** What holds of every carousel from its construction on: the host's table
    holds exactly the interval the carousel has the handle of, a handle
    means the carousel is playing, and the count is the number of slides. *)
Record timer_inv (c : Carousel) : Prop := {
  ti_timers : timers c = match timerId c with Some id => [id] | None => [] end;
  ti_playing : is_Some (timerId c) → isPlaying c = true;
  ti_count : SLIDES_COUNT c = Z.of_nat (length (slides c))
}.

(** What holds once [init()], [play()] or [pause()] has run: a playing
    carousel has a handle. *)
Definition settled (c : Carousel) : Prop :=
  isPlaying c = true → is_Some (timerId c).

(** A call that fails has not changed the state. *)
Definition fails_before_mutating {S A} (m : M S A) (s : S) : Prop :=
  ∀ e, (m s).2 = Throw e → (m s).1 = s.

(** [next()] or [prev()], by direction. *)
Definition navigate (forward : bool) : M Carousel unit :=
  if forward then next else prev.

(** ** The page's entry point ([main.js]) *)

(** The options [main.js] passes. *)
Definition main_options : Options :=
  {| o_containerId := Some "#carousel"; o_slideId := Some ".slide";
     o_interval := Some 5000; o_isPlaying := Some true;
     o_pauseOnHover := Some true |}.

(** The [DOMContentLoaded] listener: the carousel is built, then
    initialised; an exception of the constructor ends the listener. *)
Definition main (document : Document) : JsError + SwipeCarousel :=
  match swipe_constructor main_options document with
  | inl e => inl e
  | inr carousel => inr (swipe_init carousel)
  end.

(** ** Further predicates on states *)

(** Exactly the element at index [i] carries the class [active]. *)
Definition only_active (l : list Element) (i : Z) : Prop :=
  ∀ j e, l !! j = Some e → (cls_active e = true ↔ Z.of_nat j = i).

(** The page shows the current slide: it alone is active, and so is its
    indicator among the indicators. *)
Definition shows_current (c : Carousel) : Prop :=
  only_active (slides c) (currentSlide c) ∧
  ∃ ch, indicatorsContainer c = IndAttached ch ∧ only_active ch (currentSlide c).

(** [#createControls] has run: both icons exist. *)
Definition has_icons (c : Carousel) : Prop :=
  is_Some (pauseIcon c) ∧ is_Some (playIcon c).

(** The icons tell the state: the pause icon is visible exactly while the
    carousel plays, the play icon while it does not. *)
Definition icons_tell (c : Carousel) : Prop :=
  pauseIcon c = Some (if isPlaying c then "1" else "0") ∧
  playIcon c = Some (if isPlaying c then "0" else "1").

(** An event the page can deliver to a carousel of [count] slides without
    leaving the range the wrap of [#gotoNth] handles: a clicked indicator
    carries as [data-slide-to] an integer [n] of at least [-count], with [n]
    and [n + count] among the integers a number holds exactly. *)
Definition in_wrap_range (count : Z) (ev : Event) : Prop :=
  match ev with
  | IndicatorsClick (Some t) =>
      cls_indicator t = true →
      - count ≤ slideTo t ∧
      exact_integer (slideTo t) ∧ exact_integer (slideTo t + count)
  | _ => True
  end.

(** What the constructor fixes for good. *)
Record same_config (c c' : Carousel) : Prop := {
  cf_pauseOnHover : pauseOnHover c' = pauseOnHover c;
  cf_TIMER_INTERVAL : TIMER_INTERVAL c' = TIMER_INTERVAL c;
  cf_SLIDES_COUNT : SLIDES_COUNT c' = SLIDES_COUNT c;
  cf_length : length (slides c') = length (slides c)
}.

(** The state [#gotoNth(n)] ends in when nothing is missing. *)
Definition shown (n : Z) (ch : list Element) (c : Carousel) : Carousel :=
  let w := Z.to_nat (n `mod` SLIDES_COUNT c) in
  let cur := Z.to_nat (currentSlide c) in
  {| slides := alter classList_add_active w
                 (alter classList_remove_active cur (slides c));
     TIMER_INTERVAL := TIMER_INTERVAL c; isPlaying := isPlaying c;
     pauseOnHover := pauseOnHover c; SLIDES_COUNT := SLIDES_COUNT c;
     currentSlide := n `mod` SLIDES_COUNT c; timerId := timerId c;
     indicatorsContainer :=
       IndAttached (alter classList_add_active w
                      (alter classList_remove_active cur ch));
     pauseIcon := pauseIcon c; playIcon := playIcon c;
     timers := timers c; next_timer := next_timer c |}.

(** Fields that decide [in_order], [shows_current] and [has_icons]. *)
Record same_page (c c' : Carousel) : Prop := {
  sp_slides : slides c' = slides c;
  sp_SLIDES_COUNT : SLIDES_COUNT c' = SLIDES_COUNT c;
  sp_currentSlide : currentSlide c' = currentSlide c;
  sp_indicatorsContainer : indicatorsContainer c' = indicatorsContainer c;
  sp_pauseIcon : pauseIcon c' = pauseIcon c;
  sp_playIcon : playIcon c' = playIcon c
}.

(** What [init()] makes of the indicators. *)
Definition init_children (c : Carousel) : list Element :=
  match indicatorsContainer c with
  | IndNull (Some existing) | IndAttached existing => mark_first 0 existing
  | IndNull None => new_indicators (SLIDES_COUNT c)
  end.

(** From [c] to [c']: the carousel is still in working order with its
    icons, the count is the same, and if the page showed the current slide
    it still does. *)
Record kept (c c' : Carousel) : Prop := {
  k_order : in_order c';
  k_icons : has_icons c';
  k_count : SLIDES_COUNT c' = SLIDES_COUNT c;
  k_shown : shows_current c → shows_current c'
}.

(** [k] calls of [next()] in a row. *)
Definition nexts (k : nat) (c : Carousel) : Carousel :=
  Nat.iter k (λ c, (next c).1) c.

(** * Properties *)

(** ** The monad, unfolded *)

Ltac unfold_m :=
  unfold deref, mbind, M_bind, mret, M_ret, get, modify, throw in *.

Lemma fresh_constructed (n : nat) :
  swipe_constructor no_options (page n) = inr (fresh n).
Proof.
  unfold swipe_constructor, constructor, fresh. cbn.
  by rewrite length_fmap, length_seq.
Qed.

(** ** What [#gotoNth] leaves alone *)

Lemma same_control_refl c : same_control c c.
Proof. by split. Qed.

Lemma same_control_trans c1 c2 c3 :
  same_control c1 c2 → same_control c2 c3 → same_control c1 c3.
Proof. intros [] []; split; congruence. Qed.

Lemma item_Some_range {A} (l : list A) i a :
  item l i = Some a → 0 ≤ i < Z.of_nat (length l).
Proof.
  unfold item. case_match; [done|]. intros Hl%lookup_lt_Some. lia.
Qed.

Lemma item_in_range {A} (l : list A) i :
  0 ≤ i < Z.of_nat (length l) → is_Some (item l i).
Proof.
  intros Hi. unfold item. case_match; [lia|]. apply lookup_lt_is_Some. lia.
Qed.

Lemma item_nil {A} i : item (@nil A) i = None.
Proof. unfold item. by case_match. Qed.

Lemma item_set_item_None {A} (l : list A) i j a :
  item l j = None → item (set_item l i a) j = None.
Proof.
  unfold item, set_item. case_match; [done|].
  rewrite !lookup_ge_None, length_insert. done.
Qed.

Lemma item_set_item_Some {A} (l : list A) i j a :
  is_Some (item l j) → is_Some (item (set_item l i a) j).
Proof.
  unfold item, set_item. case_match; [done|].
  rewrite !lookup_lt_is_Some, length_insert. done.
Qed.

Ltac gotoNth_cases :=
  unfold gotoNth; unfold_m;
  unfold set_indicator, indicator_children in *;
  repeat (case_match; simplify_eq/=).

Lemma gotoNth_control n c : same_control c (gotoNth n c).1.
Proof.
  gotoNth_cases; split; simpl; rewrite ?length_insert; try done.
  all: unfold set_item; by rewrite ?length_insert.
Qed.

(** [#gotoNth] either leaves the index alone or sets it to the wrapped
    target. *)
Lemma gotoNth_currentSlide n c :
  currentSlide (gotoNth n c).1 = currentSlide c ∨
  currentSlide (gotoNth n c).1 = Z.rem (n + SLIDES_COUNT c) (SLIDES_COUNT c).
Proof. gotoNth_cases; auto. Qed.

(** Every exception of [#gotoNth] is the runtime's [TypeError]. *)
Lemma gotoNth_Throw n c e : (gotoNth n c).2 = Throw e → e = TypeError.
Proof. gotoNth_cases; congruence. Qed.

(** When [#gotoNth] returns, the old and the new index both name a slide
    and the index is the wrapped target. *)
Lemma gotoNth_Normal n c u :
  (gotoNth n c).2 = Normal u →
  currentSlide (gotoNth n c).1 = Z.rem (n + SLIDES_COUNT c) (SLIDES_COUNT c) ∧
  is_Some (item (slides c) (currentSlide c)) ∧
  is_Some (item (slides c) (currentSlide (gotoNth n c).1)).
Proof.
  gotoNth_cases; try done. intros _. split_and!; [done|done|].
  match goal with
  | H : item (set_item ?l _ _) ?j = Some _ |- is_Some (item ?l ?j) =>
      destruct (item l j) eqn:E; [done|];
      by rewrite (item_set_item_None _ _ _ _ E) in H
  end.
Qed.

(** The first lookup fails: nothing has been written. *)
Lemma gotoNth_undefined n c :
  item (slides c) (currentSlide c) = None → gotoNth n c = (c, Throw TypeError).
Proof. intros H. unfold gotoNth. unfold_m. by rewrite H. Qed.

Lemma gotoNth_completes n c :
  in_order c → - SLIDES_COUNT c ≤ n → (gotoNth n c).2 = Normal tt.
Proof.
  intros [Hc Hn Hi (ch & Hch & Hlen)] Hge.
  assert (0 ≤ Z.rem (n + SLIDES_COUNT c) (SLIDES_COUNT c) < SLIDES_COUNT c) as Hw
    by (apply Z.rem_bound_pos; lia).
  destruct (item_in_range (slides c) (currentSlide c)) as [old Hold]; [lia|].
  destruct (item_in_range ch (currentSlide c)) as [oldI HoldI]; [lia|].
  unfold gotoNth. unfold_m. unfold set_indicator, indicator_children.
  rewrite Hold, Hch. simpl. rewrite HoldI. simpl. rewrite Hch. simpl.
  destruct (item_set_item_Some (slides c) (currentSlide c)
    (Z.rem (n + SLIDES_COUNT c) (SLIDES_COUNT c)) (classList_remove_active old))
    as [new Hnew]; [apply item_in_range; lia|].
  rewrite Hnew. simpl.
  destruct (item_set_item_Some ch (currentSlide c)
    (Z.rem (n + SLIDES_COUNT c) (SLIDES_COUNT c)) (classList_remove_active oldI))
    as [newI HnewI]; [apply item_in_range; lia|].
  by rewrite HnewI.
Qed.

(** On integers at or above [-SLIDES_COUNT] the remainder of the code is
    the mathematical modulo. *)
Lemma wrap_is_mod n count :
  0 < count → - count ≤ n → Z.rem (n + count) count = n `mod` count.
Proof.
  intros Hc Hn. rewrite Z.rem_mod_nonneg by lia.
  rewrite <- (Z.mod_add n 1 count) by lia. f_equal. lia.
Qed.

(** ** The timer discipline *)

Lemma filter_single (id : positive) : filter (λ t, t ≠ id) [id] = [].
Proof. cbn. by case_decide. Qed.

Lemma same_control_inv c c' : same_control c c' → timer_inv c → timer_inv c'.
Proof.
  intros Hs [Ht Hp Hn]. split.
  - by rewrite (sc_timers _ _ Hs), (sc_timerId _ _ Hs).
  - by rewrite (sc_timerId _ _ Hs), (sc_isPlaying _ _ Hs).
  - by rewrite (sc_SLIDES_COUNT _ _ Hs), (sc_length _ _ Hs).
Qed.

Lemma same_control_settled c c' : same_control c c' → settled c → settled c'.
Proof.
  intros Hs Hset Hp. rewrite (sc_timerId _ _ Hs). apply Hset.
  by rewrite <- (sc_isPlaying _ _ Hs).
Qed.

Lemma startTimer_timers c :
  timer_inv c →
  timerId (startTimer c) = Some (next_timer c) ∧
  timers (startTimer c) = [next_timer c].
Proof.
  intros [Ht _ _]. unfold startTimer, clearInterval, setInterval.
  destruct (timerId c); simpl; rewrite Ht; by rewrite ?filter_single.
Qed.

Lemma startTimer_slides c : slides (startTimer c) = slides c.
Proof. unfold startTimer. by destruct (timerId c). Qed.

Lemma startTimer_fields c :
  isPlaying (startTimer c) = isPlaying c ∧
  SLIDES_COUNT (startTimer c) = SLIDES_COUNT c ∧
  currentSlide (startTimer c) = currentSlide c ∧
  pauseOnHover (startTimer c) = pauseOnHover c ∧
  indicatorsContainer (startTimer c) = indicatorsContainer c.
Proof. unfold startTimer. by destruct (timerId c). Qed.

Lemma pause_fields c :
  isPlaying (pause c) = false ∧ timerId (pause c) = None ∧
  slides (pause c) = slides c ∧
  SLIDES_COUNT (pause c) = SLIDES_COUNT c ∧
  currentSlide (pause c) = currentSlide c ∧
  pauseOnHover (pause c) = pauseOnHover c ∧
  indicatorsContainer (pause c) = indicatorsContainer c.
Proof. unfold pause. by destruct (timerId c) eqn:E; simpl; rewrite ?E. Qed.

Lemma pause_timers c : timer_inv c → timers (pause c) = [].
Proof.
  intros [Ht _ _]. unfold pause, clearInterval.
  destruct (timerId c); simpl; rewrite Ht; by rewrite ?filter_single.
Qed.

Lemma pause_inv c : timer_inv c → timer_inv (pause c).
Proof.
  intros Hc. pose proof (pause_timers c Hc) as Ht.
  destruct (pause_fields c) as (Hp & Hid & Hs & Hn & _). split.
  - by rewrite Hid.
  - rewrite Hid. by intros [? ?].
  - rewrite Hn, Hs. apply Hc.
Qed.

Lemma pause_settled c : settled (pause c).
Proof. unfold settled. by rewrite (proj1 (pause_fields c)). Qed.

Lemma startTimer_inv c :
  timer_inv c → isPlaying c = true → timer_inv (startTimer c).
Proof.
  intros Hc Hp. destruct (startTimer_timers c Hc) as [Hid Ht].
  destruct (startTimer_fields c) as (Hpl & Hn & _). split.
  - by rewrite Hid.
  - by rewrite Hpl.
  - rewrite Hn, startTimer_slides. apply Hc.
Qed.

Lemma play_inv c : timer_inv c → timer_inv (play c).
Proof.
  intros Hc. destruct (startTimer_timers c Hc) as [Hid Ht].
  destruct (startTimer_fields c) as (_ & Hn & _).
  split; unfold play;
    cbn [timers timerId isPlaying SLIDES_COUNT slides set_isPlaying].
  - by rewrite Ht, Hid.
  - done.
  - rewrite Hn, startTimer_slides. apply Hc.
Qed.

Lemma play_settled c : timer_inv c → settled (play c).
Proof.
  intros Hc _. unfold play. cbn [timerId set_isPlaying].
  rewrite (proj1 (startTimer_timers c Hc)). by eexists.
Qed.

Lemma createIndicators_inv c : timer_inv c → timer_inv (createIndicators c).
Proof.
  intros []. unfold createIndicators.
  destruct (indicatorsContainer c) as [[?|]|?]; by split.
Qed.

Lemma init_inv c : timer_inv c → timer_inv (init c).
Proof.
  intros Hc. unfold init.
  assert (timer_inv (createIndicators (createControls c))) as H1.
  { apply createIndicators_inv. destruct Hc. by split. }
  case_match; [by apply startTimer_inv|done].
Qed.

Lemma init_settled c : timer_inv c → settled (init c).
Proof.
  intros Hc. unfold init.
  assert (timer_inv (createIndicators (createControls c))) as H1.
  { apply createIndicators_inv. destruct Hc. by split. }
  case_match eqn:E.
  - intros _. rewrite (proj1 (startTimer_timers _ H1)). by eexists.
  - intros Hp. congruence.
Qed.

Lemma gotoNth_inv n c : timer_inv c → timer_inv (gotoNth n c).1.
Proof. apply same_control_inv, gotoNth_control. Qed.

Lemma gotoNth_settled n c : settled c → settled (gotoNth n c).1.
Proof. apply same_control_settled, gotoNth_control. Qed.

(** [next()] and [prev()] are the pause followed by [#gotoNth]. *)
Lemma next_unfold c : next c = gotoNth (currentSlide c + 1) (pause c).
Proof.
  unfold next. unfold_m. by rewrite (proj1 (proj2 (proj2 (proj2 (proj2 (pause_fields c)))))).
Qed.

Lemma prev_unfold c : prev c = gotoNth (currentSlide c - 1) (pause c).
Proof.
  unfold prev. unfold_m. by rewrite (proj1 (proj2 (proj2 (proj2 (proj2 (pause_fields c)))))).
Qed.

Lemma next_inv c : timer_inv c → timer_inv (next c).1.
Proof. intros Hc. rewrite next_unfold. by apply gotoNth_inv, pause_inv. Qed.

Lemma prev_inv c : timer_inv c → timer_inv (prev c).1.
Proof. intros Hc. rewrite prev_unfold. by apply gotoNth_inv, pause_inv. Qed.

Lemma next_settled c : settled (next c).1.
Proof. rewrite next_unfold. apply gotoNth_settled, pause_settled. Qed.

Lemma prev_settled c : settled (prev c).1.
Proof. rewrite prev_unfold. apply gotoNth_settled, pause_settled. Qed.

(** [pausePlay()] ends in the state of [pause()] or of [play()], up to the
    opacity of the two icons. *)
Lemma pausePlay_state c :
  ∃ pa pl, (pausePlay c).1 =
           set_icons pa pl (if isPlaying c then pause c else play c).
Proof.
  unfold pausePlay. unfold_m.
  destruct (isPlaying c); [generalize (pause c)|generalize (play c)];
    intros c1; destruct (pauseIcon c1) eqn:E1, (playIcon c1) eqn:E2;
    cbn; rewrite ?E1, ?E2; cbn; try (by eexists _, _).
  all: exists (pauseIcon c1), (playIcon c1); by destruct c1.
Qed.

Lemma set_icons_inv pa pl c : timer_inv c → timer_inv (set_icons pa pl c).
Proof. intros []. by split. Qed.

Lemma pausePlay_inv c : timer_inv c → timer_inv (pausePlay c).1.
Proof.
  intros Hc. destruct (pausePlay_state c) as (pa & pl & ->).
  apply set_icons_inv. destruct (isPlaying c); [by apply pause_inv|by apply play_inv].
Qed.

Lemma pausePlay_settled c : timer_inv c → settled (pausePlay c).1.
Proof.
  intros Hc. destruct (pausePlay_state c) as (pa & pl & ->).
  destruct (isPlaying c); [apply (pause_settled c)|apply (play_settled c Hc)].
Qed.

Lemma indicatorClick_state target c :
  indicatorClick target c = (c, Normal tt) ∨
  ∃ t, target = Some t ∧ cls_indicator t = true ∧
       indicatorClick target c = gotoNth (slideTo t) (pause c).
Proof.
  destruct target as [t|]; [|by left]. simpl.
  destruct (cls_indicator t) eqn:E; [|by left].
  right. exists t. by rewrite E.
Qed.

Lemma keydownHandler_state code c :
  keydownHandler code c = prev c ∨ keydownHandler code c = next c ∨
  keydownHandler code c = pausePlay c ∨ keydownHandler code c = (c, Normal tt).
Proof. unfold keydownHandler. repeat case_match; auto. Qed.

Lemma fire_state id c :
  fire id c = gotoNth (currentSlide c + 1) c ∨ fire id c = (c, Normal tt).
Proof. unfold fire, timer_callback. unfold_m. case_match; auto. Qed.

Lemma handle_inv ev c : timer_inv c → timer_inv (handle ev c).1.
Proof.
  intros Hc. destruct ev; simpl.
  - by apply init_inv.
  - by apply next_inv.
  - by apply prev_inv.
  - by apply pause_inv.
  - by apply play_inv.
  - by apply pausePlay_inv.
  - by apply prev_inv.
  - by apply next_inv.
  - by apply pausePlay_inv.
  - destruct (indicatorClick_state target c) as [-> | (t & _ & _ & ->)]; [done|].
    by apply gotoNth_inv, pause_inv.
  - destruct (keydownHandler_state code c) as [-> | [-> | [-> | ->]]];
      [by apply prev_inv|by apply next_inv|by apply pausePlay_inv|done].
  - unfold mouseenterHandler. case_match; [by apply pause_inv|done].
  - unfold mouseleaveHandler. case_match; [by apply play_inv|done].
  - destruct (fire_state id c) as [->| ->]; [by apply gotoNth_inv|done].
Qed.

Lemma handle_settled ev c : timer_inv c → settled c → settled (handle ev c).1.
Proof.
  intros Hc Hs. destruct ev; simpl.
  - by apply init_settled.
  - apply next_settled.
  - apply prev_settled.
  - apply pause_settled.
  - by apply play_settled.
  - by apply pausePlay_settled.
  - apply prev_settled.
  - apply next_settled.
  - by apply pausePlay_settled.
  - destruct (indicatorClick_state target c) as [-> | (t & _ & _ & ->)]; [done|].
    apply gotoNth_settled, pause_settled.
  - destruct (keydownHandler_state code c) as [-> | [-> | [-> | ->]]];
      [apply prev_settled|apply next_settled|by apply pausePlay_settled|done].
  - unfold mouseenterHandler. case_match; [apply pause_settled|done].
  - unfold mouseleaveHandler. case_match; [by apply play_settled|done].
  - destruct (fire_state id c) as [->| ->]; [by apply gotoNth_settled|done].
Qed.

(** ** Runs of a [SwipeCarousel] *)

Lemma inherited_super {A} (m : M Carousel A) s :
  super (inherited m s).1 = (m (super s)).1.
Proof. unfold inherited. by destruct (m (super s)). Qed.

Lemma handleSwipe_super s :
  super (handleSwipe s).1 = super s ∨
  super (handleSwipe s).1 = (next (super s)).1 ∨
  super (handleSwipe s).1 = (prev (super s)).1.
Proof.
  unfold handleSwipe. unfold_m. repeat case_match; simpl; auto.
  all: rewrite inherited_super; auto.
Qed.

(** Every event of a [SwipeCarousel] acts on the inherited part as some
    event of [Carousel], or not at all. *)
Lemma swipe_handle_super ev s :
  super (swipe_handle ev s).1 = super s ∨
  ∃ ev', super (swipe_handle ev s).1 = (handle ev' (super s)).1.
Proof.
  destruct ev as [ev|x|x|x|x]; simpl.
  - right. exists ev. destruct ev; simpl; by rewrite ?inherited_super.
  - by left.
  - unfold touchEndHandler. unfold_m.
    destruct (handleSwipe_super (set_endX x s)) as [H|[H|H]]; simpl in *;
      [by left|right; by exists CallNext|right; by exists CallPrev].
  - by left.
  - unfold mouseUpHandler. unfold_m.
    destruct (handleSwipe_super (set_endX x s)) as [H|[H|H]]; simpl in *;
      [by left|right; by exists CallNext|right; by exists CallPrev].
Qed.

Lemma swipe_handle_inv ev s :
  timer_inv (super s) → timer_inv (super (swipe_handle ev s).1).
Proof.
  intros Hs. destruct (swipe_handle_super ev s) as [-> | [ev' ->]]; [done|].
  by apply handle_inv.
Qed.

Lemma swipe_handle_settled ev s :
  timer_inv (super s) → settled (super s) →
  settled (super (swipe_handle ev s).1).
Proof.
  intros Hi Hs. destruct (swipe_handle_super ev s) as [-> | [ev' ->]]; [done|].
  by apply handle_settled.
Qed.

Lemma run_app evs1 evs2 s : run (evs1 ++ evs2) s = run evs2 (run evs1 s).
Proof. apply foldl_app. Qed.

Lemma run_inv evs s : timer_inv (super s) → timer_inv (super (run evs s)).
Proof.
  revert s. induction evs as [|ev evs IH]; intros s Hs; [done|].
  simpl. apply IH. by apply swipe_handle_inv.
Qed.

Lemma run_settled evs s :
  timer_inv (super s) → settled (super s) → settled (super (run evs s)).
Proof.
  revert s. induction evs as [|ev evs IH]; intros s Hi Hs; [done|].
  simpl. apply IH; [by apply swipe_handle_inv|by apply swipe_handle_settled].
Qed.

Lemma constructor_inv options document s :
  swipe_constructor options document = inr s → timer_inv (super s).
Proof.
  unfold swipe_constructor, constructor.
  destruct (document _); [|done]. intros [= <-]. by split; simpl; [| intros [? ?] |].
Qed.

Lemma reachable_inv s : reachable s → timer_inv (super s).
Proof.
  intros (o & d & s0 & evs & Hc & ->). eapply run_inv, constructor_inv, Hc.
Qed.

Lemma pause_in_order c : in_order c → in_order (pause c).
Proof.
  intros [Hc Hn Hi Hch].
  destruct (pause_fields c) as (_ & _ & Hs & Hcnt & Hcur & _ & Hind).
  split; rewrite ?Hs, ?Hcnt, ?Hcur, ?Hind; done.
Qed.

Lemma started_in_order (n : nat) : (0 < n)%nat → in_order (super (started n)).
Proof.
  intros Hn. unfold started, swipe_init, init. cbn.
  split; cbn; rewrite ?length_fmap, ?length_seq; try lia.
  eexists. split; [done|].
  unfold new_indicators. rewrite length_fmap, length_seqZ. lia.
Qed.

(** * The claims *)

(** ** C1: the wrap of [#gotoNth] *)

(** C1, as stated, fails: with 3 slides and the index at 0, advancing by
    [-4] leaves the index at [-1], outside [0, 3); the mathematical modulo
    would have given 2. *)
Lemma advance_below_minus_count_escapes :
  let c := super (started 3) in
  let c' := (gotoNth (currentSlide c + -4) c).1 in
  0 < SLIDES_COUNT c ∧ currentSlide c' = -1 ∧
  (currentSlide c + -4) `mod` SLIDES_COUNT c = 2 ∧
  ¬ (0 ≤ currentSlide c' < SLIDES_COUNT c').
Proof. vm_compute. split_and!; try done. intros [H _]. by apply H. Qed.

(** C1, amended: for a slide count above 0, an index in range and an
    integer delta [d] with [currentSlide + d ≥ -SLIDES_COUNT] (so for the
    deltas [+1] and [-1] of [next()], [prev()] and the timer), where [d],
    [currentSlide + d] and [currentSlide + d + SLIDES_COUNT] are integers a
    JavaScript number holds exactly (at most 2^53 in absolute value), the
    index after [#gotoNth(currentSlide + d)] is in [0, SLIDES_COUNT). On a
    carousel in working order the call returns and the index is
    [(currentSlide + d) mod SLIDES_COUNT], the mathematical modulo. *)
Theorem advance_wrap_invariant (c : Carousel) (d : Z) :
  0 < SLIDES_COUNT c →
  0 ≤ currentSlide c < SLIDES_COUNT c →
  - SLIDES_COUNT c ≤ currentSlide c + d →
  exact_integer d →
  exact_integer (currentSlide c + d) →
  exact_integer (currentSlide c + d + SLIDES_COUNT c) →
  let r := gotoNth (currentSlide c + d) c in
  0 ≤ currentSlide r.1 < SLIDES_COUNT r.1 ∧
  (r.2 = Normal tt →
   currentSlide r.1 = (currentSlide c + d) `mod` SLIDES_COUNT c) ∧
  (in_order c →
   r.2 = Normal tt ∧
   currentSlide r.1 = (currentSlide c + d) `mod` SLIDES_COUNT c).
Proof.
  intros Hn Hi Hd _ _ _ r. subst r.
  rewrite (sc_SLIDES_COUNT _ _ (gotoNth_control (currentSlide c + d) c)).
  pose proof (wrap_is_mod (currentSlide c + d) (SLIDES_COUNT c) Hn Hd) as Hw.
  assert ((gotoNth (currentSlide c + d) c).2 = Normal tt →
          currentSlide (gotoNth (currentSlide c + d) c).1 =
          (currentSlide c + d) `mod` SLIDES_COUNT c) as Hmod.
  { intros Hr. destruct (gotoNth_Normal _ _ _ Hr) as (-> & _). done. }
  split; [|split].
  - destruct (gotoNth_currentSlide (currentSlide c + d) c) as [-> | ->]; [done|].
    rewrite Hw. by apply Z.mod_pos_bound.
  - exact Hmod.
  - intros Ho.
    pose proof (gotoNth_completes (currentSlide c + d) c Ho Hd) as Hr.
    split; [exact Hr|by apply Hmod].
Qed.

Lemma advance_wrap_invariant_witness :
  let c := super (started 3) in
  let r := gotoNth (currentSlide c + -1) c in
  r.2 = Normal tt ∧ currentSlide r.1 = 2 ∧
  0 ≤ currentSlide r.1 < SLIDES_COUNT r.1.
Proof.
  intros c r.
  destruct (advance_wrap_invariant (super (started 3)) (-1))
    as (Hrange & _ & Hreturns).
  - reflexivity.
  - vm_compute. split; [discriminate|reflexivity].
  - vm_compute. discriminate.
  - vm_compute. discriminate.
  - vm_compute. discriminate.
  - vm_compute. discriminate.
  - destruct Hreturns as [Hr Hidx]; [apply started_in_order; lia|].
    split; [exact Hr|]. split; [exact Hidx|exact Hrange].
Defined.

(** ** C2: hover after a manual pause *)

(** C2, as stated, fails: a playing carousel that is paused by hand and then
    hovered and left is playing again. *)
Lemma hover_leave_resumes_manual_pause :
  let s := started 3 in
  let s' := run [Base CallPause; Base Mouseenter; Base Mouseleave] s in
  isPlaying (super s) = true ∧
  isPlaying (super (run [Base CallPause] s)) = false ∧
  isPlaying (super s') ≠ false.
Proof. vm_compute. done. Qed.

(** C2, amended: after a manual [pause()], a hover-enter and a hover-leave,
    the carousel is playing exactly when [pauseOnHover] is enabled:
    hover-leave resumes play whenever the carousel is not playing, whoever
    paused it, and only a carousel without [pauseOnHover] stays paused. *)
Theorem hover_after_manual_pause (s : SwipeCarousel) :
  let s' := run [Base CallPause; Base Mouseenter; Base Mouseleave] s in
  isPlaying (super s') = pauseOnHover (super s) ∧
  (is_Some (timerId (super s')) ↔ pauseOnHover (super s) = true).
Proof.
  cbn.
  destruct (pause_fields (super s)) as (Hp & Hid & _ & _ & _ & Hh & _).
  rewrite <- Hh. clear Hh. revert Hp Hid.
  generalize (pause (super s)). intros c1 Hp Hid.
  unfold mouseenterHandler. rewrite Hp, andb_false_r.
  unfold mouseleaveHandler. rewrite Hp. cbn [negb]. rewrite andb_true_r.
  destruct (pauseOnHover c1).
  - unfold play, startTimer, setInterval. rewrite Hid. cbn.
    split; [done|]. split; [done|by eexists].
  - rewrite Hp, Hid. split; [done|]. split; [by intros [? ?]|done].
Qed.

(** ** C3: jumping to an index *)

(** C3, as stated, fails: with 5 slides, a click on an indicator whose
    [data-slide-to] is [-7] leaves the index at [-2] (not at
    [-7 mod 5 = 3]) and raises. *)
Lemma goTo_below_minus_count_escapes :
  let c := super (started 5) in
  let t := {| cls_indicator := true; cls_active := false; slideTo := -7;
              inner_indicators := 0 |} in
  let r := indicatorClick (Some t) c in
  r.2 = Throw TypeError ∧ currentSlide r.1 = -2 ∧
  slideTo t `mod` SLIDES_COUNT c = 3 ∧
  ¬ (0 ≤ currentSlide r.1 < SLIDES_COUNT r.1).
Proof. vm_compute. split_and!; try done. intros [H _]. by apply H. Qed.

(** C3, amended: on a carousel in working order, a click on an indicator
    whose [data-slide-to] is an integer [n ≥ -SLIDES_COUNT], in range or
    not, with [n] and [n + SLIDES_COUNT] among the integers a JavaScript
    number holds exactly (at most 2^53 in absolute value), returns and
    leaves the index at [n mod SLIDES_COUNT]; with 5 slides, [7] and [2]
    both leave it at 2, from any starting index. *)
Theorem goTo_wraps (c : Carousel) (t : Element) :
  in_order c →
  cls_indicator t = true →
  - SLIDES_COUNT c ≤ slideTo t →
  exact_integer (slideTo t) →
  exact_integer (slideTo t + SLIDES_COUNT c) →
  let r := indicatorClick (Some t) c in
  r.2 = Normal tt ∧
  currentSlide r.1 = slideTo t `mod` SLIDES_COUNT c ∧
  0 ≤ currentSlide r.1 < SLIDES_COUNT c ∧
  (SLIDES_COUNT c = 5 → slideTo t = 7 ∨ slideTo t = 2 → currentSlide r.1 = 2).
Proof.
  intros Hc Ht Hn _ _ r. subst r. cbn [indicatorClick]. rewrite Ht.
  change ((modify pause;; gotoNth (slideTo t)) c)
    with (gotoNth (slideTo t) (pause c)).
  pose proof (pause_in_order c Hc) as Hp.
  destruct (pause_fields c) as (_ & _ & _ & Hcnt & _).
  assert ((gotoNth (slideTo t) (pause c)).2 = Normal tt) as Hr
    by (apply gotoNth_completes; [done|by rewrite Hcnt]).
  destruct (gotoNth_Normal _ _ _ Hr) as (Hcur & _).
  rewrite Hcnt, wrap_is_mod in Hcur by (destruct Hc; lia).
  rewrite Hcur. split; [done|]. split; [done|]. split.
  - apply Z.mod_pos_bound. by destruct Hc.
  - intros -> [-> | ->]; reflexivity.
Qed.

Lemma goTo_wraps_witness :
  let c := super (started 5) in
  let t := {| cls_indicator := true; cls_active := false; slideTo := 7;
              inner_indicators := 0 |} in
  let r := indicatorClick (Some t) c in
  r.2 = Normal tt ∧ currentSlide r.1 = 7 `mod` 5 ∧
  0 ≤ currentSlide r.1 < 5 ∧ (5 = 5 → 7 = 7 ∨ 7 = 2 → currentSlide r.1 = 2).
Proof.
  apply (goTo_wraps (super (started 5))
           {| cls_indicator := true; cls_active := false; slideTo := 7;
              inner_indicators := 0 |}).
  - apply started_in_order. lia.
  - reflexivity.
  - vm_compute. discriminate.
  - vm_compute. discriminate.
  - vm_compute. discriminate.
Defined.

(** ** C4: navigation without slides *)

(** C4, as stated, fails: on a started carousel without slides, [next()]
    neither raises an [InvalidStateError] nor leaves the state alone. *)
Lemma empty_next_is_neither_InvalidStateError_nor_noop :
  let c := super (started 0) in
  SLIDES_COUNT c = 0 ∧
  ¬ ((next c).2 = Throw InvalidStateError ∨ next c = (c, Normal tt)).
Proof. vm_compute. split; [done|]. intros [H|H]; discriminate. Qed.

Lemma reachable_empty c :
  timer_inv c → SLIDES_COUNT c = 0 → ∀ i, item (slides c) i = None.
Proof.
  intros [_ _ Hc] H0 i. rewrite H0 in Hc.
  destruct (slides c); [apply item_nil|done].
Qed.

(** C4, amended: when the slide count is 0, [next()], [prev()] and every
    tick of the timer fail alike, with the [TypeError] of the first slide
    lookup of [#gotoNth], before the index or any class is written;
    [next()] and [prev()] have paused by then. No [InvalidStateError]
    exists, and the failure is not a no-op for [next()] and [prev()]. *)
Theorem empty_navigation_fails_alike (s : SwipeCarousel) :
  reachable s →
  SLIDES_COUNT (super s) = 0 →
  let c := super s in
  next c = (pause c, Throw TypeError) ∧
  prev c = (pause c, Throw TypeError) ∧
  timer_callback c = (c, Throw TypeError) ∧
  (∀ id, id ∈ timers c → fire id c = (c, Throw TypeError)).
Proof.
  intros Hr H0 c. subst c. apply reachable_inv in Hr.
  pose proof (reachable_empty _ Hr H0) as He.
  assert (∀ n, gotoNth n (super s) = (super s, Throw TypeError)) as Hg
    by (intros n; apply gotoNth_undefined, He).
  assert (∀ n, gotoNth n (pause (super s)) = (pause (super s), Throw TypeError)) as Hgp.
  { intros n. apply gotoNth_undefined.
    destruct (pause_fields (super s)) as (_ & _ & -> & _). apply He. }
  split_and!.
  - by rewrite next_unfold.
  - by rewrite prev_unfold.
  - unfold timer_callback. unfold_m. apply Hg.
  - intros id Hid. unfold fire, timer_callback. unfold_m.
    rewrite bool_decide_eq_true_2 by done. apply Hg.
Qed.

Lemma empty_navigation_fails_alike_witness :
  let c := super (started 0) in
  next c = (pause c, Throw TypeError) ∧
  prev c = (pause c, Throw TypeError) ∧
  timer_callback c = (c, Throw TypeError) ∧
  (∀ id, id ∈ timers c → fire id c = (c, Throw TypeError)).
Proof.
  apply (empty_navigation_fails_alike (started 0)).
  - exists no_options, (page 0), (fresh 0), [Base CallInit].
    split; reflexivity.
  - reflexivity.
Defined.

(** ** C5: manual navigation takes over from auto-play *)

(** A step of [+1] or [-1] taken right after the pause. *)
Lemma step_after_pause (d : Z) (c : Carousel) :
  timer_inv c → -1 ≤ d →
  let r := gotoNth (currentSlide c + d) (pause c) in
  isPlaying r.1 = false ∧ timerId r.1 = None ∧ timers r.1 = [] ∧
  (r.2 = Normal tt →
   currentSlide r.1 = (currentSlide c + d) `mod` SLIDES_COUNT c) ∧
  (in_order c → r.2 = Normal tt).
Proof.
  intros Hc Hd r. subst r.
  pose proof (gotoNth_control (currentSlide c + d) (pause c)) as Hs.
  destruct (pause_fields c) as (Hp & Hid & Hsl & Hcnt & Hcur & _).
  split_and!.
  - by rewrite (sc_isPlaying _ _ Hs).
  - by rewrite (sc_timerId _ _ Hs).
  - rewrite (sc_timers _ _ Hs). by apply pause_timers.
  - intros Hr. destruct (gotoNth_Normal _ _ _ Hr) as (-> & [old Hold] & _).
    apply item_Some_range in Hold. rewrite Hsl, Hcur in Hold.
    rewrite Hcnt. pose proof (ti_count _ Hc). apply wrap_is_mod; lia.
  - intros Ho. apply gotoNth_completes; [by apply pause_in_order|].
    rewrite Hcnt. destruct Ho. lia.
Qed.

(** C5: from a playing carousel, [next()] and [prev()] pause first and then
    step: they are [#gotoNth] of the index [+1] or [-1] run in the paused
    state; afterwards [isPlaying] is false, the handle is null and no
    interval is scheduled, and when the step returns (as it does on a
    carousel in working order) the index has moved by one, modulo the
    count. *)
Theorem navigation_pauses_first (s : SwipeCarousel) :
  reachable s →
  isPlaying (super s) = true →
  let c := super s in
  (next c = gotoNth (currentSlide c + 1) (pause c) ∧
   isPlaying (next c).1 = false ∧ timerId (next c).1 = None ∧
   timers (next c).1 = [] ∧
   ((next c).2 = Normal tt →
    currentSlide (next c).1 = (currentSlide c + 1) `mod` SLIDES_COUNT c) ∧
   (in_order c → (next c).2 = Normal tt)) ∧
  (prev c = gotoNth (currentSlide c - 1) (pause c) ∧
   isPlaying (prev c).1 = false ∧ timerId (prev c).1 = None ∧
   timers (prev c).1 = [] ∧
   ((prev c).2 = Normal tt →
    currentSlide (prev c).1 = (currentSlide c - 1) `mod` SLIDES_COUNT c) ∧
   (in_order c → (prev c).2 = Normal tt)).
Proof.
  intros Hr _ c. subst c. apply reachable_inv in Hr. split.
  - rewrite next_unfold. split; [done|].
    apply (step_after_pause 1 (super s) Hr). lia.
  - rewrite prev_unfold. split; [done|].
    apply (step_after_pause (-1) (super s) Hr). lia.
Qed.

Lemma navigation_pauses_first_witness :
  isPlaying (super (started 3)) = true ∧
  isPlaying (next (super (started 3))).1 = false ∧
  currentSlide (prev (super (started 3))).1 = 2.
Proof.
  destruct (navigation_pauses_first (started 3)) as [Hn Hp].
  - exists no_options, (page 3), (fresh 3), [Base CallInit].
    split; reflexivity.
  - reflexivity.
  - split; [reflexivity|]. split; [apply Hn|].
    destruct Hp as (_ & _ & _ & _ & Hi & Ho). rewrite Hi; [reflexivity|].
    apply Ho. apply started_in_order. lia.
Defined.

(** ** C6: one timer at most *)

Lemma play_fields c :
  slides (play c) = slides c ∧ SLIDES_COUNT (play c) = SLIDES_COUNT c ∧
  currentSlide (play c) = currentSlide c ∧
  indicatorsContainer (play c) = indicatorsContainer c.
Proof.
  destruct (startTimer_fields c) as (_ & Hn & Hc & _ & Hi).
  unfold play. cbn [slides SLIDES_COUNT currentSlide indicatorsContainer set_isPlaying].
  by rewrite startTimer_slides.
Qed.

Lemma play_in_order c : in_order c → in_order (play c).
Proof.
  intros [Hc Hn Hi Hch]. destruct (play_fields c) as (Hs & Hcnt & Hcur & Hind).
  split; rewrite ?Hs, ?Hcnt, ?Hcur, ?Hind; done.
Qed.

(** With a single interval scheduled, a period that elapses runs the
    callback once. *)
Lemma tick_single c id :
  timers c = [id] → tick c = (gotoNth (currentSlide c + 1) c).1.
Proof.
  intros Ht. unfold tick. rewrite Ht. cbn [foldl].
  unfold fire, timer_callback. unfold_m.
  rewrite bool_decide_eq_true_2; [done|]. rewrite Ht. apply list_elem_of_here.
Qed.

(** C6: in every state a carousel can reach, at most one interval is
    scheduled; after [play()] called twice exactly one is, the one the
    handle names, so that a period that elapses runs the callback once and
    moves the index by one, not by two. *)
Theorem at_most_one_timer (s : SwipeCarousel) :
  reachable s →
  let c := super s in
  (length (timers c) ≤ 1)%nat ∧
  (∃ id, timers (play (play c)) = [id] ∧ timerId (play (play c)) = Some id) ∧
  tick (play (play c)) = (gotoNth (currentSlide c + 1) (play (play c))).1 ∧
  (in_order c →
   currentSlide (tick (play (play c))) = (currentSlide c + 1) `mod` SLIDES_COUNT c).
Proof.
  intros Hr c. subst c. apply reachable_inv in Hr.
  pose proof (play_inv _ (play_inv _ Hr)) as H2.
  assert (∃ id, timers (play (play (super s))) = [id] ∧
                timerId (play (play (super s))) = Some id) as (id & Ht & Hid).
  { destruct (startTimer_timers _ (play_inv _ Hr)) as [Hid Ht].
    exists (next_timer (play (super s))). by unfold play at 1 3. }
  destruct (play_fields (super s)) as (_ & Hn1 & Hc1 & _).
  destruct (play_fields (play (super s))) as (_ & Hn2 & Hc2 & _).
  assert (tick (play (play (super s))) =
          (gotoNth (currentSlide (super s) + 1) (play (play (super s)))).1) as Htick.
  { rewrite (tick_single _ id Ht). by rewrite Hc2, Hc1. }
  split_and!.
  - rewrite (ti_timers _ Hr). destruct (timerId (super s)); simpl; lia.
  - by exists id.
  - done.
  - intros Ho. rewrite Htick.
    pose proof (play_in_order _ (play_in_order _ Ho)) as Ho2.
    assert ((gotoNth (currentSlide (super s) + 1) (play (play (super s)))).2 = Normal tt) as Hok.
    { apply gotoNth_completes; [done|]. rewrite Hn2, Hn1. destruct Ho. lia. }
    destruct (gotoNth_Normal _ _ _ Hok) as (-> & _).
    rewrite Hn2, Hn1. apply wrap_is_mod; destruct Ho; lia.
Qed.

Lemma at_most_one_timer_witness :
  let c := super (started 3) in
  (length (timers c) ≤ 1)%nat ∧
  (∃ id, timers (play (play c)) = [id] ∧ timerId (play (play c)) = Some id) ∧
  tick (play (play c)) = (gotoNth (currentSlide c + 1) (play (play c))).1 ∧
  (in_order c →
   currentSlide (tick (play (play c))) = (currentSlide c + 1) `mod` SLIDES_COUNT c).
Proof.
  apply (at_most_one_timer (started 3)).
  exists no_options, (page 3), (fresh 3), [Base CallInit].
  split; reflexivity.
Defined.

(** ** C7: swipe classification *)

Lemma handleSwipe_classify (s : SwipeCarousel) :
  handleSwipe s =
  match classify (startX s) (endX s) (swipeThreshold s) with
  | NoSwipe => (s, Normal tt)
  | Forward => inherited next s
  | Backward => inherited prev s
  end.
Proof. unfold handleSwipe, classify. unfold_m. by repeat case_match. Qed.

(** C7: what a press at [x0] and a release at [x1] do is decided by
    [classify x0 x1 swipeThreshold] alone, for the mouse and for touch: a
    displacement below the threshold does nothing, otherwise a positive
    difference [x0 - x1] calls [next()] and any other calls [prev()]. With
    the threshold 100 of the constructor, 100 to 0 is forward, 99 to 0 is no
    swipe and 0 to 150 is backward. *)
Theorem swipe_classification
    (s : SwipeCarousel) (x0 x1 : Z) (options : Options) (document : Document) :
  let released := set_endX x1 (set_startX x0 s) in
  let outcome :=
    match classify x0 x1 (swipeThreshold s) with
    | NoSwipe => (released, Normal tt)
    | Forward => inherited next released
    | Backward => inherited prev released
    end in
  mouseUpHandler x1 (mouseDownHandler x0 s).1 = outcome ∧
  touchEndHandler x1 (touchStartHandler x0 s).1 = outcome ∧
  match swipe_constructor options document with
  | inr s0 => swipeThreshold s0 = 100
  | inl _ => True
  end ∧
  classify 100 0 100 = Forward ∧
  classify 99 0 100 = NoSwipe ∧
  classify 0 150 100 = Backward ∧
  mouseUpHandler 0 (mouseDownHandler 100 (started 3)).1 =
    inherited next (set_endX 0 (set_startX 100 (started 3))) ∧
  mouseUpHandler 0 (mouseDownHandler 99 (started 3)).1 =
    (set_endX 0 (set_startX 99 (started 3)), Normal tt) ∧
  mouseUpHandler 150 (mouseDownHandler 0 (started 3)).1 =
    inherited prev (set_endX 150 (set_startX 0 (started 3))).
Proof.
  intros released outcome.
  assert (handleSwipe released = outcome) as H
    by (subst outcome; by rewrite handleSwipe_classify).
  split_and!; try reflexivity; try apply H.
  unfold swipe_constructor. by destruct (constructor options document).
Qed.

(** ** C8: what a failed call leaves behind *)

(** C8, as stated, fails: on a started, playing carousel without slides
    [next()] raises after it has cleared the timer and the playing flag. *)
Lemma failed_next_has_already_paused :
  let c := super (started 0) in
  (next c).2 = Throw TypeError ∧
  isPlaying c = true ∧ isPlaying (next c).1 = false ∧
  timerId c = Some 1%positive ∧ timerId (next c).1 = None ∧
  ¬ fails_before_mutating next c.
Proof.
  split_and!; try reflexivity.
  intros H. specialize (H TypeError eq_refl). vm_compute in H. discriminate.
Qed.

(** C8, amended: [next()] and [prev()] are not atomic. They pause first,
    and when the navigation then fails, always with a [TypeError], the pause
    stays: [isPlaying] is false, the handle is null and no interval is
    scheduled. On an empty slide set the failure comes before the index or
    any class is written: the state at the error is the paused state. *)
Theorem failed_navigation_state (s : SwipeCarousel) (forward : bool) (e : JsError) :
  reachable s →
  (navigate forward (super s)).2 = Throw e →
  e = TypeError ∧
  isPlaying (navigate forward (super s)).1 = false ∧
  timerId (navigate forward (super s)).1 = None ∧
  timers (navigate forward (super s)).1 = [] ∧
  (SLIDES_COUNT (super s) = 0 →
   (navigate forward (super s)).1 = pause (super s) ∧
   currentSlide (navigate forward (super s)).1 = currentSlide (super s)).
Proof.
  intros Hr He. apply reachable_inv in Hr.
  set (d := if forward then 1 else -1).
  assert (navigate forward (super s) =
          gotoNth (currentSlide (super s) + d) (pause (super s))) as Hnav.
  { unfold navigate, d. destruct forward; [apply next_unfold|apply prev_unfold]. }
  rewrite Hnav in *.
  destruct (step_after_pause d (super s) Hr) as (Hp & Hid & Ht & _);
    [unfold d; destruct forward; lia|].
  split_and!; try done.
  - by apply gotoNth_Throw in He.
  - intros H0. rewrite gotoNth_undefined.
    + split; [done|apply pause_fields].
    + destruct (pause_fields (super s)) as (_ & _ & -> & _ & -> & _).
      by apply reachable_empty.
Qed.

Lemma failed_navigation_state_witness :
  isPlaying (navigate true (super (started 0))).1 = false ∧
  (navigate true (super (started 0))).1 = pause (super (started 0)).
Proof.
  destruct (failed_navigation_state (started 0) true TypeError)
    as (_ & Hp & _ & _ & H0).
  - exists no_options, (page 0), (fresh 0), [Base CallInit].
    split; reflexivity.
  - reflexivity.
  - split; [exact Hp|]. apply H0. reflexivity.
Defined.

(** ** C9: the playing flag and the timer *)

(** C9, as stated, fails: between construction and [init()] the carousel of
    [main.js] has [isPlaying] true and no timer. *)
Lemma constructed_playing_without_timer :
  swipe_constructor no_options (page 3) = inr (fresh 3) ∧
  isPlaying (super (fresh 3)) = true ∧ timerId (super (fresh 3)) = None ∧
  timers (super (fresh 3)) = [] ∧
  ¬ (isPlaying (super (fresh 3)) = true ↔ is_Some (timerId (super (fresh 3)))).
Proof.
  split_and!; try reflexivity. intros [H _].
  destruct (H eq_refl) as [id Hid]. discriminate.
Qed.

(** C9, amended: once [init()] has run, at every later point [isPlaying] is
    true exactly when a timer handle exists, which is exactly when an
    interval is scheduled. Before [init()] only one direction holds: a
    handle implies [isPlaying]; the flag then holds the [isPlaying] option
    (by default true) while nothing is scheduled. *)
Theorem playing_iff_timer_after_init
    (options : Options) (document : Document) (s0 : SwipeCarousel)
    (before after : list SwipeEvent) :
  swipe_constructor options document = inr s0 →
  (isPlaying (super (run (before ++ Base CallInit :: after) s0)) = true ↔
   is_Some (timerId (super (run (before ++ Base CallInit :: after) s0)))) ∧
  (is_Some (timerId (super (run (before ++ Base CallInit :: after) s0))) ↔
   timers (super (run (before ++ Base CallInit :: after) s0)) ≠ []) ∧
  (is_Some (timerId (super (run before s0))) →
   isPlaying (super (run before s0)) = true).
Proof.
  intros Hc. apply constructor_inv in Hc.
  pose proof (run_inv before s0 Hc) as H1.
  rewrite run_app. change (run (Base CallInit :: after) (run before s0))
    with (run after (swipe_init (run before s0))).
  assert (timer_inv (super (swipe_init (run before s0)))) as H2
    by (by apply init_inv).
  assert (settled (super (swipe_init (run before s0)))) as H3
    by (by apply init_settled).
  pose proof (run_inv after _ H2) as H4.
  pose proof (run_settled after _ H2 H3) as H5.
  split_and!.
  - split; [apply H5|apply H4].
  - rewrite (ti_timers _ H4).
    destruct (timerId _); split; try done. all: by intros [? ?].
  - apply H1.
Qed.

Lemma playing_iff_timer_after_init_witness :
  isPlaying (super (run ([] ++ Base CallInit :: [Base CallNext]) (fresh 3))) = true ↔
  is_Some (timerId (super (run ([] ++ Base CallInit :: [Base CallNext]) (fresh 3)))).
Proof.
  apply (playing_iff_timer_after_init no_options (page 3) (fresh 3) [] [Base CallNext]).
  reflexivity.
Defined.

(** ** C10: a gesture below the threshold *)

(** C10: a press at [x0] and a release at [x1] less than the threshold
    apart (a click in place, when the threshold is positive) return and
    leave the whole inherited [Carousel] as it was, and so the slide index,
    the playing flag, the timer handle and the scheduled intervals; only the
    two recorded coordinates change. The same holds for touch. *)
Theorem small_gesture_changes_nothing (s : SwipeCarousel) (x0 x1 : Z) :
  Z.abs (x0 - x1) < swipeThreshold s →
  mouseUpHandler x1 (mouseDownHandler x0 s).1 =
    (set_endX x1 (set_startX x0 s), Normal tt) ∧
  touchEndHandler x1 (touchStartHandler x0 s).1 =
    (set_endX x1 (set_startX x0 s), Normal tt) ∧
  super (mouseUpHandler x1 (mouseDownHandler x0 s).1).1 = super s ∧
  currentSlide (super (mouseUpHandler x1 (mouseDownHandler x0 s).1).1) =
    currentSlide (super s) ∧
  isPlaying (super (mouseUpHandler x1 (mouseDownHandler x0 s).1).1) =
    isPlaying (super s) ∧
  timerId (super (mouseUpHandler x1 (mouseDownHandler x0 s).1).1) =
    timerId (super s) ∧
  timers (super (mouseUpHandler x1 (mouseDownHandler x0 s).1).1) =
    timers (super s).
Proof.
  intros Hlt.
  assert (mouseUpHandler x1 (mouseDownHandler x0 s).1 =
          (set_endX x1 (set_startX x0 s), Normal tt)) as H.
  { unfold mouseUpHandler, mouseDownHandler, handleSwipe. unfold_m. cbn.
    by rewrite (proj2 (Z.ltb_lt _ _) Hlt). }
  split_and!; try (by rewrite H). exact H.
Qed.

Lemma small_gesture_changes_nothing_witness :
  Z.abs (40 - 40) < swipeThreshold (started 3) ∧
  super (mouseUpHandler 40 (mouseDownHandler 40 (started 3)).1).1 =
    super (started 3).
Proof.
  split; [reflexivity|].
  apply (small_gesture_changes_nothing (started 3) 40 40). reflexivity.
Defined.

(** * Further properties of the code *)

(** ** [#gotoNth] on a carousel in working order *)

Lemma item_alter {A} (f : A → A) (l : list A) (i : Z) (a : A) :
  item l i = Some a → set_item l i (f a) = alter f (Z.to_nat i) l.
Proof.
  unfold item, set_item. case_match; [done|]. intros Hl.
  apply list_eq. intros j. destruct (decide (Z.to_nat i = j)) as [<-|Hne].
  - rewrite list_lookup_insert_eq by (by eapply lookup_lt_Some).
    by rewrite list_lookup_alter_eq, Hl.
  - by rewrite list_lookup_insert_ne, list_lookup_alter_ne.
Qed.

Lemma item_alter_is_Some {A} (f : A → A) (l : list A) (i j : nat) :
  is_Some (l !! j) → ∃ a, alter f i l !! j = Some a ∧
    (i = j → ∃ b, l !! j = Some b ∧ a = f b) ∧ (i ≠ j → l !! j = Some a).
Proof.
  intros [b Hb]. destruct (decide (i = j)) as [->|Hne].
  - exists (f b). rewrite list_lookup_alter_eq, Hb. split; [done|].
    split; [by exists b|done].
  - exists b. rewrite list_lookup_alter_ne by done. split; [done|].
    split; [done|by intros _].
Qed.

Lemma gotoNth_shown n c ch :
  in_order c → indicatorsContainer c = IndAttached ch →
  - SLIDES_COUNT c ≤ n →
  gotoNth n c = (shown n ch c, Normal tt).
Proof.
  intros [Hc Hn Hi (ch' & Hch' & Hlen)] Hch Hge.
  rewrite Hch in Hch'. injection Hch' as <-.
  pose proof (wrap_is_mod n (SLIDES_COUNT c) Hn Hge) as Hw.
  pose proof (Z.mod_pos_bound n (SLIDES_COUNT c) Hn) as Hb.
  destruct (item_in_range (slides c) (currentSlide c)) as [old Hold]; [lia|].
  destruct (item_in_range ch (currentSlide c)) as [oldI HoldI]; [lia|].
  destruct (item_in_range (alter classList_remove_active
              (Z.to_nat (currentSlide c)) (slides c)) (n `mod` SLIDES_COUNT c))
    as [new Hnew]; [rewrite length_alter; lia|].
  destruct (item_in_range (alter classList_remove_active
              (Z.to_nat (currentSlide c)) ch) (n `mod` SLIDES_COUNT c))
    as [newI HnewI]; [rewrite length_alter; lia|].
  unfold gotoNth. unfold_m. unfold set_indicator, indicator_children.
  rewrite Hold, Hch. cbn. rewrite HoldI. cbn. rewrite Hch. cbn.
  rewrite Hw, (item_alter _ _ _ _ Hold), (item_alter _ _ _ _ HoldI).
  rewrite Hnew, HnewI. cbn.
  by rewrite (item_alter _ _ _ _ Hnew), (item_alter _ _ _ _ HnewI).
Qed.

Lemma shown_in_order n c ch :
  in_order c → indicatorsContainer c = IndAttached ch → in_order (shown n ch c).
Proof.
  intros [Hc Hn Hi (ch' & Hch' & Hlen)] Hch.
  rewrite Hch in Hch'. injection Hch' as <-.
  split; cbn; rewrite ?length_alter; try done.
  - by apply Z.mod_pos_bound.
  - eexists. split; [done|]. by rewrite !length_alter.
Qed.

Lemma only_active_step (l : list Element) (cur w : Z) :
  0 ≤ cur → 0 ≤ w → only_active l cur →
  only_active (alter classList_add_active (Z.to_nat w)
                 (alter classList_remove_active (Z.to_nat cur) l)) w.
Proof.
  intros Hcur Hw Hl j e.
  destruct (decide (Z.to_nat w = j)) as [<-|Hjw].
  - rewrite list_lookup_alter_eq. intros He.
    destruct (alter _ _ l !! Z.to_nat w); [|done].
    injection He as <-. cbn. split; [lia|done].
  - rewrite list_lookup_alter_ne by done.
    destruct (decide (Z.to_nat cur = j)) as [<-|Hjc].
    + rewrite list_lookup_alter_eq. intros He.
      destruct (l !! Z.to_nat cur); [|done].
      injection He as <-. cbn. split; [done|lia].
    + rewrite list_lookup_alter_ne by done. intros He.
      rewrite (Hl j e He). lia.
Qed.

Lemma shown_shows_current n c ch :
  in_order c → indicatorsContainer c = IndAttached ch →
  shows_current c → shows_current (shown n ch c).
Proof.
  intros Ho Hch [Hs (ch' & Hch' & Hi)].
  rewrite Hch in Hch'. injection Hch' as <-.
  pose proof (Z.mod_pos_bound n (SLIDES_COUNT c) (io_nonempty _ Ho)) as Hb.
  pose proof (io_index _ Ho) as Hcur.
  split; cbn.
  - apply only_active_step; [lia|lia|done].
  - eexists. split; [done|]. apply only_active_step; [lia|lia|done].
Qed.

Lemma same_page_in_order c c' : same_page c c' → in_order c → in_order c'.
Proof.
  intros [Hs Hn Hc Hi _ _] [? ? ? ?]. split; rewrite ?Hs, ?Hn, ?Hc, ?Hi; done.
Qed.

Lemma same_page_shows_current c c' :
  same_page c c' → shows_current c → shows_current c'.
Proof.
  intros [Hs Hn Hc Hi _ _] [? ?]. unfold shows_current.
  rewrite ?Hs, ?Hn, ?Hc, ?Hi. done.
Qed.

Lemma same_page_has_icons c c' : same_page c c' → has_icons c → has_icons c'.
Proof. intros [_ _ _ _ Ha Hl]. unfold has_icons. by rewrite Ha, Hl. Qed.

Lemma startTimer_page c : same_page c (startTimer c).
Proof. unfold startTimer. destruct (timerId c); by split. Qed.

Lemma pause_page c : same_page c (pause c).
Proof. unfold pause. destruct (timerId c); by split. Qed.

Lemma play_page c : same_page c (play c).
Proof. unfold play. destruct (startTimer_page c). by split. Qed.

(** ** [init()]: controls and indicators *)

Lemma mark_first_length idx l : length (mark_first idx l) = length l.
Proof.
  revert idx. induction l as [|e r IH]; intros idx; [done|].
  cbn [mark_first length]. by rewrite IH.
Qed.

(** Child [j] after the [forEach]: untouched without the class
    [indicator], else active exactly when no element of the class precedes
    it in document order. *)
Lemma mark_first_lookup idx l j e0 :
  l !! j = Some e0 →
  mark_first idx l !! j =
  Some (if cls_indicator e0 then
          if Nat.eqb (idx + sum_list_with matched (take j l)) 0
          then classList_add_active e0 else classList_remove_active e0
        else e0).
Proof.
  revert idx j. induction l as [|e r IH]; intros idx j; [done|].
  destruct j as [|j]; cbn [mark_first].
  - intros [= ->]. cbn. by rewrite Nat.add_0_r.
  - intros Hj. change (r !! j = Some e0) in Hj.
    etrans; [exact (IH (idx + matched e)%nat j Hj)|].
    cbn [take sum_list_with]. by rewrite Nat.add_assoc.
Qed.

Lemma no_indicator_before (l : list Element) (j : nat) :
  sum_list_with matched (take j l) = 0%nat ↔
  ∀ k e, (k < j)%nat → l !! k = Some e →
         cls_indicator e = false ∧ inner_indicators e = 0%nat.
Proof.
  revert j. induction l as [|e r IH]; intros j.
  - rewrite take_nil. split; [by intros _ k e' _ ?|done].
  - destruct j as [|j]; [split; [intros _ k e' Hk; lia|done]|].
    cbn [take sum_list_with]. split.
    + intros H k e' Hk He'.
      assert (matched e = 0%nat ∧ sum_list_with matched (take j r) = 0%nat)
        as [He Hr] by lia.
      destruct k as [|k].
      * injection He' as <-. unfold matched in He.
        destruct (cls_indicator e); [lia|]. split; [done|lia].
      * apply (proj1 (IH j) Hr k e'); [lia|done].
    + intros H.
      destruct (H 0%nat e) as [Hc Hi]; [lia|done|].
      assert (sum_list_with matched (take j r) = 0%nat) as Hr.
      { apply IH. intros k e' Hk He'. apply (H (S k) e'); [lia|done]. }
      rewrite Hr. unfold matched. by rewrite Hc, Hi.
Qed.

Lemma new_indicators_length count :
  length (new_indicators count) = Z.to_nat count.
Proof. unfold new_indicators. by rewrite length_fmap, length_seqZ. Qed.

Lemma new_indicators_lookup count (i : nat) :
  Z.of_nat i < count →
  new_indicators count !! i =
  Some {| cls_indicator := true; cls_active := Z.of_nat i =? 0;
          slideTo := Z.of_nat i; inner_indicators := 0 |}.
Proof.
  intros Hi. unfold new_indicators.
  by rewrite list_lookup_fmap, lookup_seqZ_lt.
Qed.

Lemma new_indicators_lookup_Some count (i : nat) t :
  new_indicators count !! i = Some t →
  t = {| cls_indicator := true; cls_active := Z.of_nat i =? 0;
         slideTo := Z.of_nat i; inner_indicators := 0 |} ∧ Z.of_nat i < count.
Proof.
  intros Ht. assert (i < length (new_indicators count))%nat as Hlt
    by (by eapply lookup_lt_Some).
  rewrite new_indicators_length in Hlt.
  rewrite new_indicators_lookup in Ht by lia. split; [congruence|lia].
Qed.

Lemma init_fields c :
  slides (init c) = slides c ∧ SLIDES_COUNT (init c) = SLIDES_COUNT c ∧
  currentSlide (init c) = currentSlide c ∧
  pauseOnHover (init c) = pauseOnHover c ∧
  TIMER_INTERVAL (init c) = TIMER_INTERVAL c ∧
  isPlaying (init c) = isPlaying c ∧
  indicatorsContainer (init c) = IndAttached (init_children c) ∧
  pauseIcon (init c) = Some (if isPlaying c then "1" else "0") ∧
  playIcon (init c) = Some (if isPlaying c then "0" else "1").
Proof.
  unfold init, init_children, createIndicators, createControls.
  destruct (indicatorsContainer c) as [[l|]|l] eqn:E; cbn; rewrite ?E; cbn.
  all: destruct (isPlaying c) eqn:Ep; cbn; [|done].
  all: unfold startTimer; cbn; by destruct (timerId c).
Qed.

(** ** A carousel in working order stays so *)

Lemma kept_refl c : in_order c → has_icons c → kept c c.
Proof. by split. Qed.

Lemma kept_trans c1 c2 c3 : kept c1 c2 → kept c2 c3 → kept c1 c3.
Proof. intros [] []. split; [done|done|congruence|auto]. Qed.

Lemma kept_same_page c c' :
  in_order c → has_icons c → same_page c c' → kept c c'.
Proof.
  intros Ho Hi Hp. split.
  - by eapply same_page_in_order.
  - by eapply same_page_has_icons.
  - apply Hp.
  - by apply same_page_shows_current.
Qed.

Lemma kept_set_icons c pa pl :
  in_order c → kept c (set_icons (Some pa) (Some pl) c).
Proof.
  intros [? ? ? ?]. split; [by split| |done|done].
  split; by eexists.
Qed.

Lemma gotoNth_kept n c :
  in_order c → has_icons c → - SLIDES_COUNT c ≤ n →
  (gotoNth n c).2 = Normal tt ∧ kept c (gotoNth n c).1 ∧
  currentSlide (gotoNth n c).1 = n `mod` SLIDES_COUNT c.
Proof.
  intros Ho Hi Hn. destruct (io_indicators _ Ho) as (ch & Hch & _).
  rewrite (gotoNth_shown n c ch Ho Hch Hn). split; [done|]. split; [|done].
  split; [by apply shown_in_order|done|done|by apply shown_shows_current].
Qed.

Lemma pause_kept c : in_order c → has_icons c → kept c (pause c).
Proof. intros Ho Hi. apply kept_same_page; [done|done|apply pause_page]. Qed.

Lemma play_kept c : in_order c → has_icons c → kept c (play c).
Proof. intros Ho Hi. apply kept_same_page; [done|done|apply play_page]. Qed.

Lemma step_kept d c :
  in_order c → has_icons c → -1 ≤ d →
  (gotoNth (currentSlide c + d) (pause c)).2 = Normal tt ∧
  kept c (gotoNth (currentSlide c + d) (pause c)).1 ∧
  currentSlide (gotoNth (currentSlide c + d) (pause c)).1 =
    (currentSlide c + d) `mod` SLIDES_COUNT c.
Proof.
  intros Ho Hi Hd. destruct (pause_kept c Ho Hi) as [Ho1 Hi1 Hc1 Hs1].
  destruct (gotoNth_kept (currentSlide c + d) (pause c) Ho1 Hi1) as (Hr & Hk & Hcur).
  { rewrite Hc1. destruct Ho. lia. }
  split; [done|]. split; [|by rewrite Hcur, Hc1].
  eapply kept_trans; [|exact Hk]. by split.
Qed.

(** With both icons in place [pausePlay()] returns, in the state of
    [pause()] or [play()] with the icons swapped accordingly. *)
Lemma pausePlay_ok c :
  has_icons c →
  pausePlay c =
  (set_icons (Some (if isPlaying c then "0" else "1"))
             (Some (if isPlaying c then "1" else "0"))
             (if isPlaying c then pause c else play c), Normal tt).
Proof.
  intros [[pa Hpa] [pl Hpl]]. unfold pausePlay. unfold_m.
  destruct (isPlaying c).
  - rewrite <- (sp_pauseIcon _ _ (pause_page c)) in Hpa.
    rewrite <- (sp_playIcon _ _ (pause_page c)) in Hpl.
    revert Hpa Hpl. generalize (pause c). intros c1 Hpa Hpl.
    by rewrite Hpa, Hpl.
  - rewrite <- (sp_pauseIcon _ _ (play_page c)) in Hpa.
    rewrite <- (sp_playIcon _ _ (play_page c)) in Hpl.
    revert Hpa Hpl. generalize (play c). intros c1 Hpa Hpl.
    by rewrite Hpa, Hpl.
Qed.

Lemma pausePlay_kept c :
  in_order c → has_icons c →
  (pausePlay c).2 = Normal tt ∧ kept c (pausePlay c).1.
Proof.
  intros Ho Hi. rewrite (pausePlay_ok c Hi). split; [done|]. cbn [fst].
  destruct (isPlaying c).
  - eapply kept_trans; [by apply pause_kept|].
    apply kept_set_icons. by apply pause_kept.
  - eapply kept_trans; [by apply play_kept|].
    apply kept_set_icons. by apply play_kept.
Qed.

Lemma handle_kept ev c :
  in_order c → has_icons c → ev ≠ CallInit →
  in_wrap_range (SLIDES_COUNT c) ev →
  (handle ev c).2 = Normal tt ∧ kept c (handle ev c).1.
Proof.
  intros Ho Hi Hne Hev.
  assert ((next c).2 = Normal tt ∧ kept c (next c).1) as Hnext.
  { rewrite next_unfold. destruct (step_kept 1 c Ho Hi) as (? & ? & _); [lia|done]. }
  assert ((prev c).2 = Normal tt ∧ kept c (prev c).1) as Hprev.
  { rewrite prev_unfold. destruct (step_kept (-1) c Ho Hi) as (? & ? & _); [lia|done]. }
  pose proof (pausePlay_kept c Ho Hi) as Htoggle.
  pose proof (kept_refl c Ho Hi) as Hsame.
  destruct ev; cbn [handle]; try done.
  - split; [done|by apply pause_kept].
  - split; [done|by apply play_kept].
  - destruct target as [t|]; [|done]. cbn [indicatorClick].
    destruct (cls_indicator t) eqn:E; [|done].
    change ((modify pause;; gotoNth (slideTo t)) c)
      with (gotoNth (slideTo t) (pause c)).
    destruct (pause_kept c Ho Hi) as [Ho1 Hi1 Hc1 Hs1].
    destruct (gotoNth_kept (slideTo t) (pause c) Ho1 Hi1) as (Hr & Hk & _).
    { rewrite Hc1. by apply Hev. }
    split; [done|]. eapply kept_trans; [|exact Hk]. by split.
  - destruct (keydownHandler_state code c) as [-> | [-> | [-> | ->]]]; done.
  - split; [done|]. unfold modify, mouseenterHandler. cbn [fst].
    case_match; [by apply pause_kept|done].
  - split; [done|]. unfold modify, mouseleaveHandler. cbn [fst].
    case_match; [by apply play_kept|done].
  - destruct (fire_state id c) as [-> | ->]; [|done].
    destruct (gotoNth_kept (currentSlide c + 1) c Ho Hi) as (? & ? & _); [|done].
    destruct Ho. lia.
Qed.

Lemma init_kept_order c : in_order c → in_order (init c) ∧ has_icons (init c).
Proof.
  intros [Hc Hn Hi (ch & Hch & Hlen)].
  destruct (init_fields c) as (Hs & Hcnt & Hcur & _ & _ & _ & Hind & Hpa & Hpl).
  split.
  - split; rewrite ?Hs, ?Hcnt, ?Hcur; try done.
    eexists. split; [exact Hind|]. unfold init_children. rewrite Hch.
    by rewrite mark_first_length.
  - split; [rewrite Hpa|rewrite Hpl]; by eexists.
Qed.

(** * More of the code's behaviour *)

(** ** [main.js] *)

(** X1: the page's entry point raises the constructor's [TypeError] exactly
    when the page has no [#carousel]; otherwise it leaves a carousel over
    the container's [.slide] elements that plays from slide 0 with one
    interval scheduled, one indicator per slide when the page brings none,
    and the pause icon visible. The options it spells out are the
    defaults. *)
Theorem main_starts_or_raises (document : Document) :
  main document =
    match swipe_constructor no_options document with
    | inl e => inl e
    | inr s => inr (swipe_init s)
    end ∧
  match document "#carousel" with
  | None => main document = inl TypeError
  | Some container =>
      ∃ s, main document = inr s ∧
           slides (super s) = querySelectorAll container ".slide" ∧
           SLIDES_COUNT (super s) = Z.of_nat (length (slides (super s))) ∧
           currentSlide (super s) = 0 ∧
           isPlaying (super s) = true ∧
           timerId (super s) = Some 1%positive ∧
           timers (super s) = [1%positive] ∧
           TIMER_INTERVAL (super s) = 5000 ∧
           pauseOnHover (super s) = true ∧
           icons_tell (super s) ∧
           swipeThreshold s = 100 ∧
           (page_indicators container = None →
            indicatorsContainer (super s) =
              IndAttached (new_indicators (SLIDES_COUNT (super s))))
  end.
Proof.
  split; [reflexivity|].
  unfold main, swipe_constructor, constructor. cbn.
  destruct (document "#carousel") as [container|]; [|done].
  eexists. split; [reflexivity|].
  unfold swipe_init, init, createIndicators, createControls, icons_tell.
  destruct (page_indicators container); cbn; split_and!; done.
Qed.

(** ** [pause()], [play()], [pausePlay()] *)

(** X2: [pause()] is idempotent, and a [play()] followed by [pause()]
    leaves what [pause()] alone leaves, but for the handle the host has
    used up. *)
Theorem pause_idempotent_and_undoes_play (c : Carousel) :
  timer_inv c →
  pause (pause c) = pause c ∧
  pause (play c) = set_host [] (Pos.succ (next_timer c)) (pause c) ∧
  timers (pause c) = [] ∧ timerId (pause c) = None.
Proof.
  intros [Ht _ _].
  unfold play, startTimer, pause, clearInterval, setInterval.
  destruct (timerId c) as [id|] eqn:E; cbn -[filter]; rewrite ?E;
    cbn -[filter]; rewrite ?Ht; cbn -[filter]; rewrite ?filter_single.
  all: destruct c; cbn in E, Ht; subst; repeat split; reflexivity.
Qed.

Lemma pause_idempotent_and_undoes_play_witness :
  pause (pause (super (started 3))) = pause (super (started 3)) ∧
  pause (play (super (started 3))) =
    set_host [] (Pos.succ (next_timer (super (started 3)))) (pause (super (started 3))) ∧
  timers (pause (super (started 3))) = [] ∧
  timerId (pause (super (started 3))) = None.
Proof.
  apply (pause_idempotent_and_undoes_play (super (started 3))).
  split; [reflexivity| |reflexivity]. intros _. reflexivity.
Defined.

(** X3: once the controls exist, [pausePlay()] returns, flips the playing
    flag, leaves the icons telling the new state (pause icon visible exactly
    while playing), and leaves slides, index and indicators alone; toggling
    twice gives the flag back. *)
Theorem pausePlay_toggles (c : Carousel) :
  has_icons c →
  (pausePlay c).2 = Normal tt ∧
  isPlaying (pausePlay c).1 = negb (isPlaying c) ∧
  icons_tell (pausePlay c).1 ∧
  slides (pausePlay c).1 = slides c ∧
  currentSlide (pausePlay c).1 = currentSlide c ∧
  indicatorsContainer (pausePlay c).1 = indicatorsContainer c ∧
  (pausePlay (pausePlay c).1).2 = Normal tt ∧
  isPlaying (pausePlay (pausePlay c).1).1 = isPlaying c.
Proof.
  intros Hi.
  assert (∀ c, has_icons c →
            (pausePlay c).2 = Normal tt ∧
            isPlaying (pausePlay c).1 = negb (isPlaying c) ∧
            icons_tell (pausePlay c).1 ∧ has_icons (pausePlay c).1 ∧
            slides (pausePlay c).1 = slides c ∧
            currentSlide (pausePlay c).1 = currentSlide c ∧
            indicatorsContainer (pausePlay c).1 = indicatorsContainer c) as H.
  { clear. intros c Hi. rewrite (pausePlay_ok c Hi). cbn [fst snd].
    unfold icons_tell, has_icons.
    destruct (isPlaying c);
      cbn [isPlaying pauseIcon playIcon slides currentSlide
           indicatorsContainer set_icons negb].
    - destruct (pause_fields c) as (Hp & _ & Hs & _ & Hc & _ & Hind).
      rewrite Hp. split_and!; try done; by eexists.
    - destruct (play_fields c) as (Hs & _ & Hc & Hind).
      change (isPlaying (play c)) with true.
      split_and!; try done; by eexists. }
  destruct (H c Hi) as (Hr & Hp & Ht & Hi' & Hs & Hc & Hind).
  destruct (H _ Hi') as (Hr2 & Hp2 & _).
  split_and!; try done. rewrite Hp2, Hp. apply negb_involutive.
Qed.

Lemma pausePlay_toggles_witness :
  (pausePlay (super (started 3))).2 = Normal tt ∧
  isPlaying (pausePlay (super (started 3))).1 = false.
Proof.
  destruct (pausePlay_toggles (super (started 3))) as (H1 & H2 & _).
  - split; by eexists.
  - split; [exact H1|exact H2].
Defined.

(** X4: before [init()] has created the icons, [pausePlay()] raises a
    [TypeError], but only after it has paused or started the carousel: the
    flag is flipped (and a timer started or cleared) when the error
    propagates. *)
Theorem pausePlay_without_icons_raises_after_toggling (c : Carousel) :
  pauseIcon c = None →
  pausePlay c = (if isPlaying c then pause c else play c, Throw TypeError) ∧
  isPlaying (pausePlay c).1 = negb (isPlaying c).
Proof.
  intros Hpa.
  assert (pausePlay c = (if isPlaying c then pause c else play c, Throw TypeError)) as H.
  { unfold pausePlay. unfold_m. destruct (isPlaying c).
    - rewrite <- (sp_pauseIcon _ _ (pause_page c)) in Hpa.
      revert Hpa. generalize (pause c). intros c1 Hpa. by rewrite Hpa.
    - rewrite <- (sp_pauseIcon _ _ (play_page c)) in Hpa.
      revert Hpa. generalize (play c). intros c1 Hpa. by rewrite Hpa. }
  split; [done|]. rewrite H. cbn [fst].
  destruct (isPlaying c); [apply pause_fields|done].
Qed.

Lemma pausePlay_without_icons_raises_after_toggling_witness :
  (pausePlay (super (fresh 3))).2 = Throw TypeError ∧
  isPlaying (pausePlay (super (fresh 3))).1 = false.
Proof.
  destruct (pausePlay_without_icons_raises_after_toggling (super (fresh 3)))
    as [H1 H2]; [reflexivity|].
  split; [by rewrite H1|exact H2].
Defined.

(** ** [init()] and the indicators *)

(** X5: on a page that brings no indicators, [init()] creates one per slide,
    each of class [indicator] with its position as [data-slide-to] and only
    the first active; a click on the one at position [i] returns, pauses the
    carousel and shows slide [i]. *)
Theorem created_indicator_click_shows_its_slide (c : Carousel) :
  SLIDES_COUNT c = Z.of_nat (length (slides c)) →
  0 ≤ currentSlide c < SLIDES_COUNT c →
  indicatorsContainer c = IndNull None →
  ∃ ch, indicatorsContainer (init c) = IndAttached ch ∧
        length ch = length (slides c) ∧
        ∀ (i : nat) t, ch !! i = Some t →
          cls_indicator t = true ∧ slideTo t = Z.of_nat i ∧
          (cls_active t = true ↔ i = 0%nat) ∧
          (indicatorClick (Some t) (init c)).2 = Normal tt ∧
          currentSlide (indicatorClick (Some t) (init c)).1 = Z.of_nat i ∧
          isPlaying (indicatorClick (Some t) (init c)).1 = false.
Proof.
  intros Hcnt Hcur Hind.
  destruct (init_fields c) as (Hs & Hn & Hc & _ & _ & _ & Hi & Hpa & Hpl).
  unfold init_children in Hi. rewrite Hind in Hi.
  exists (new_indicators (SLIDES_COUNT c)). split; [done|].
  split; [rewrite new_indicators_length; lia|].
  intros i t [-> Hlt]%new_indicators_lookup_Some. cbn [cls_indicator slideTo cls_active].
  assert (in_order (init c)) as Ho.
  { split; rewrite ?Hs, ?Hn, ?Hc; [done|lia|done|].
    eexists. split; [done|]. rewrite new_indicators_length. lia. }
  assert (has_icons (init c)) as Hic
    by (split; [rewrite Hpa|rewrite Hpl]; by eexists).
  change (indicatorClick _ (init c))
    with (gotoNth (Z.of_nat i) (pause (init c))).
  destruct (pause_kept _ Ho Hic) as [Ho1 Hi1 Hc1 _].
  destruct (gotoNth_kept (Z.of_nat i) (pause (init c)) Ho1 Hi1)
    as (Hr & _ & Hidx); [rewrite Hc1, Hn; lia|].
  rewrite Hidx, Hc1, Hn, Z.mod_small by lia.
  split_and!; try done.
  - rewrite Z.eqb_eq. lia.
  - rewrite (sc_isPlaying _ _ (gotoNth_control _ _)). apply pause_fields.
Qed.

Lemma created_indicator_click_shows_its_slide_witness :
  ∃ ch, indicatorsContainer (init (super (fresh 3))) = IndAttached ch ∧
        length ch = 3%nat ∧
        ∀ (i : nat) t, ch !! i = Some t →
          cls_indicator t = true ∧ slideTo t = Z.of_nat i ∧
          (cls_active t = true ↔ i = 0%nat) ∧
          (indicatorClick (Some t) (init (super (fresh 3)))).2 = Normal tt ∧
          currentSlide (indicatorClick (Some t) (init (super (fresh 3)))).1 = Z.of_nat i ∧
          isPlaying (indicatorClick (Some t) (init (super (fresh 3)))).1 = false.
Proof.
  apply (created_indicator_click_shows_its_slide (super (fresh 3)));
    [reflexivity|vm_compute; split; [discriminate|reflexivity]|reflexivity].
Defined.

(** X6: when the container already holds an [#indicators-container],
    [init()] creates nothing and keeps its children in place: a child
    without the class [indicator] is left as it is, and a child of the class
    is made active when no element of the class precedes it in document
    order (no earlier child has the class or has a descendant that has it)
    and inactive otherwise. This is so whatever the current index is. *)
Theorem existing_indicators_first_active (c : Carousel) (l : list Element) :
  indicatorsContainer c = IndNull (Some l) ∨ indicatorsContainer c = IndAttached l →
  ∃ ch, indicatorsContainer (init c) = IndAttached ch ∧
        length ch = length l ∧
        ∀ (j : nat) e0, l !! j = Some e0 →
          ∃ e, ch !! j = Some e ∧
               cls_indicator e = cls_indicator e0 ∧ slideTo e = slideTo e0 ∧
               inner_indicators e = inner_indicators e0 ∧
               (cls_indicator e0 = false → e = e0) ∧
               (cls_indicator e0 = true →
                (cls_active e = true ↔
                 ∀ (k : nat) e', (k < j)%nat → l !! k = Some e' →
                   cls_indicator e' = false ∧ inner_indicators e' = 0%nat)).
Proof.
  intros Hind.
  destruct (init_fields c) as (_ & _ & _ & _ & _ & _ & Hi & _).
  assert (init_children c = mark_first 0 l) as Hch
    by (unfold init_children; by destruct Hind as [-> | ->]).
  rewrite Hch in Hi. exists (mark_first 0 l).
  split; [done|]. split; [apply mark_first_length|].
  intros j e0 Hj. eexists. split; [by apply mark_first_lookup|].
  rewrite <- no_indicator_before. cbn [Nat.add].
  destruct (cls_indicator e0) eqn:E.
  - destruct (Nat.eqb_spec (sum_list_with matched (take j l)) 0)
      as [H0|H0]; cbn; split_and!; try done.
  - by split_and!.
Qed.

Lemma existing_indicators_first_active_witness :
  let l := [ {| cls_indicator := false; cls_active := false; slideTo := 0;
                inner_indicators := 1 |};
             {| cls_indicator := true; cls_active := true; slideTo := 0;
                inner_indicators := 0 |};
             {| cls_indicator := true; cls_active := false; slideTo := 1;
                inner_indicators := 0 |} ] in
  let c := set_indicatorsContainer (IndNull (Some l)) (super (fresh 2)) in
  ∃ ch, indicatorsContainer (init c) = IndAttached ch ∧ length ch = 3%nat ∧
        ∀ (j : nat) e0, l !! j = Some e0 →
          ∃ e, ch !! j = Some e ∧
               cls_indicator e = cls_indicator e0 ∧ slideTo e = slideTo e0 ∧
               inner_indicators e = inner_indicators e0 ∧
               (cls_indicator e0 = false → e = e0) ∧
               (cls_indicator e0 = true →
                (cls_active e = true ↔
                 ∀ (k : nat) e', (k < j)%nat → l !! k = Some e' →
                   cls_indicator e' = false ∧ inner_indicators e' = 0%nat)).
Proof.
  intros l c. apply (existing_indicators_first_active c l). left. reflexivity.
Defined.

(** ** Failure inside [#gotoNth] *)

(** X7: when the current slide has no indicator (the page brought fewer
    indicators than slides), every [#gotoNth], whatever its target, raises a
    [TypeError] after it has deactivated the current slide and before it
    changes the index. The carousel is then in the same situation again, so
    that every later navigation fails in the same way, with no slide
    active. *)
Theorem missing_indicator_sticks (c : Carousel) (n : Z) (ch : list Element)
    (old : Element) :
  item (slides c) (currentSlide c) = Some old →
  indicatorsContainer c = IndAttached ch →
  item ch (currentSlide c) = None →
  (gotoNth n c).2 = Throw TypeError ∧
  currentSlide (gotoNth n c).1 = currentSlide c ∧
  item (slides (gotoNth n c).1) (currentSlide c) =
    Some (classList_remove_active old) ∧
  indicatorsContainer (gotoNth n c).1 = IndAttached ch ∧
  (next (gotoNth n c).1).2 = Throw TypeError ∧
  (prev (gotoNth n c).1).2 = Throw TypeError ∧
  currentSlide (next (gotoNth n c).1).1 = currentSlide c.
Proof.
  intros Hold Hch Hnone.
  assert (∀ c old m, item (slides c) (currentSlide c) = Some old →
            indicatorsContainer c = IndAttached ch →
            item ch (currentSlide c) = None →
            gotoNth m c =
              (set_slides (set_item (slides c) (currentSlide c)
                             (classList_remove_active old)) c, Throw TypeError)) as H.
  { clear. intros c old m Hold Hch Hnone. unfold gotoNth. unfold_m.
    unfold indicator_children. rewrite Hold, Hch. cbn. by rewrite Hnone. }
  assert (∀ (l : list Element) i a b, item l i = Some a →
            item (set_item l i b) i = Some b) as Hset.
  { clear. intros l i a b. unfold item, set_item. case_match; [done|].
    intros Hl. apply list_lookup_insert_eq. by eapply lookup_lt_Some. }
  rewrite (H c old n Hold Hch Hnone). cbn [fst snd].
  set (c1 := set_slides _ c).
  assert (item (slides c1) (currentSlide c1) = Some (classList_remove_active old)) as H1
    by (apply (Hset _ _ _ _ Hold)).
  destruct (pause_fields c1) as (_ & _ & Hs & _ & Hc & _ & Hi).
  assert (∀ d, gotoNth (currentSlide c1 + d) (pause c1) =
               (set_slides (set_item (slides (pause c1)) (currentSlide (pause c1))
                  (classList_remove_active (classList_remove_active old)))
                  (pause c1), Throw TypeError)) as Hstep.
  { intros d. apply H; rewrite ?Hs, ?Hc, ?Hi; done. }
  rewrite next_unfold, prev_unfold.
  change (currentSlide c1 - 1) with (currentSlide c1 + -1).
  rewrite !Hstep. cbn [fst snd]. split_and!; done.
Qed.

Lemma missing_indicator_sticks_witness :
  ∃ c0 c,
    constructor no_options short_page = inr c0 ∧
    c = (next (next (init c0)).1).1 ∧
    (next (next (init c0)).1).2 = Throw TypeError ∧ currentSlide c = 2 ∧
    (gotoNth 0 c).2 = Throw TypeError ∧ currentSlide (gotoNth 0 c).1 = 2 ∧
    (next (gotoNth 0 c).1).2 = Throw TypeError.
Proof.
  eexists _, _. split; [reflexivity|]. split; [reflexivity|].
  split; [reflexivity|]. split; [reflexivity|].
  match goal with
  | |- (gotoNth 0 ?c).2 = _ ∧ _ =>
      destruct (missing_indicator_sticks c 0
                  [ {| cls_indicator := true; cls_active := false; slideTo := 0;
                       inner_indicators := 0 |};
                    {| cls_indicator := true; cls_active := false; slideTo := 1;
                       inner_indicators := 0 |} ]
                  (slide_el true))
        as (H1 & H2 & _ & _ & H3 & _); [reflexivity|reflexivity|reflexivity|]
  end.
  split; [exact H1|]. split; [exact H2|exact H3].
Defined.

(** ** Working order *)

Lemma only_active_new_indicators count : only_active (new_indicators count) 0.
Proof.
  intros j t [-> _]%new_indicators_lookup_Some. cbn. by rewrite Z.eqb_eq.
Qed.

(** X8: [init()] puts a freshly built carousel with at least one slide in
    working order: every slide has its indicator (created, or brought by the
    page in sufficient number), both icons exist and tell the playing state,
    and a playing carousel has its timer. If the page brought no indicators
    and has its first slide alone active, the page shows slide 0: that slide
    and its indicator alone are active. *)
Theorem init_sets_up (c : Carousel) :
  SLIDES_COUNT c = Z.of_nat (length (slides c)) →
  0 < SLIDES_COUNT c →
  currentSlide c = 0 →
  (indicatorsContainer c = IndNull None ∨
   ∃ l, indicatorsContainer c = IndNull (Some l) ∧
        (length (slides c) ≤ length l)%nat) →
  timer_inv c →
  in_order (init c) ∧ has_icons (init c) ∧ icons_tell (init c) ∧
  settled (init c) ∧
  (indicatorsContainer c = IndNull None → only_active (slides c) 0 →
   shows_current (init c)).
Proof.
  intros Hcnt Hpos Hcur Hind Hinv.
  destruct (init_fields c) as (Hs & Hn & Hc & _ & _ & Hp & Hi & Hpa & Hpl).
  split_and!.
  - split; rewrite ?Hs, ?Hn, ?Hc; [done|done|lia|].
    eexists. split; [exact Hi|]. unfold init_children.
    destruct Hind as [-> | (l & -> & Hl)].
    + rewrite new_indicators_length. lia.
    + by rewrite mark_first_length.
  - split; [rewrite Hpa|rewrite Hpl]; by eexists.
  - unfold icons_tell. by rewrite Hp, Hpa, Hpl.
  - by apply init_settled.
  - intros Hnone Hact. split; rewrite ?Hs, ?Hc, ?Hcur; [done|].
    eexists. split; [exact Hi|]. unfold init_children. rewrite Hnone.
    apply only_active_new_indicators.
Qed.

Lemma init_sets_up_witness :
  in_order (init (super (fresh 3))) ∧ has_icons (init (super (fresh 3))) ∧
  icons_tell (init (super (fresh 3))) ∧ settled (init (super (fresh 3))) ∧
  (indicatorsContainer (super (fresh 3)) = IndNull None →
   only_active (slides (super (fresh 3))) 0 →
   shows_current (init (super (fresh 3)))).
Proof.
  apply (init_sets_up (super (fresh 3))).
  - reflexivity.
  - reflexivity.
  - reflexivity.
  - left. reflexivity.
  - split; [reflexivity| |reflexivity]. intros [id Hid]. discriminate.
Defined.

(** X9: a carousel in working order stays in working order. Every call of a
    public method and every event handled (a clicked indicator carrying as
    [data-slide-to] an integer [n] of at least [-SLIDES_COUNT], with [n]
    and [n + SLIDES_COUNT] at most 2^53 in absolute value) returns without
    an exception and leaves the count, the working order and the icons in
    place; and except for a repeated [init()], if the current slide and its
    indicator alone were active before, the same holds of the new current
    slide afterwards. *)
Theorem working_order_is_kept (ev : Event) (c : Carousel) :
  in_order c → has_icons c →
  in_wrap_range (SLIDES_COUNT c) ev →
  (handle ev c).2 = Normal tt ∧
  in_order (handle ev c).1 ∧ has_icons (handle ev c).1 ∧
  SLIDES_COUNT (handle ev c).1 = SLIDES_COUNT c ∧
  (ev ≠ CallInit → shows_current c → shows_current (handle ev c).1).
Proof.
  intros Ho Hi Hev.
  assert (ev = CallInit ∨ ev ≠ CallInit) as [-> | Hne]
    by (destruct ev; (by left) || (by right)).
  - cbn. destruct (init_kept_order c Ho) as [? ?].
    split_and!; try done. apply init_fields.
  - destruct (handle_kept ev c Ho Hi Hne Hev) as (Hr & [? ? ? ?]).
    split_and!; done.
Qed.

Lemma working_order_is_kept_witness :
  let c := super (started 3) in
  let ev := IndicatorsClick
              (Some {| cls_indicator := true; cls_active := false; slideTo := 4;
                       inner_indicators := 0 |}) in
  (handle ev c).2 = Normal tt ∧
  in_order (handle ev c).1 ∧ has_icons (handle ev c).1 ∧
  SLIDES_COUNT (handle ev c).1 = SLIDES_COUNT c ∧
  (ev ≠ CallInit → shows_current c → shows_current (handle ev c).1).
Proof.
  intros c ev. apply (working_order_is_kept ev c).
  - apply started_in_order. lia.
  - split; by eexists.
  - intros _. vm_compute. split; [discriminate|]. split; discriminate.
Defined.

(** ** Cyclic navigation *)

Lemma step_in_order d c :
  in_order c → -1 ≤ d →
  (gotoNth (currentSlide c + d) (pause c)).2 = Normal tt ∧
  in_order (gotoNth (currentSlide c + d) (pause c)).1 ∧
  SLIDES_COUNT (gotoNth (currentSlide c + d) (pause c)).1 = SLIDES_COUNT c ∧
  currentSlide (gotoNth (currentSlide c + d) (pause c)).1 =
    (currentSlide c + d) `mod` SLIDES_COUNT c.
Proof.
  intros Ho Hd. pose proof (pause_in_order c Ho) as Ho1.
  destruct (pause_fields c) as (_ & _ & _ & Hn & _).
  destruct (io_indicators _ Ho1) as (ch & Hch & _).
  rewrite (gotoNth_shown _ _ ch Ho1 Hch) by (rewrite Hn; destruct Ho; lia).
  cbn [fst snd]. split; [done|]. split; [by apply shown_in_order|].
  unfold shown. cbn [SLIDES_COUNT currentSlide]. by rewrite Hn.
Qed.

Lemma nexts_index k c :
  in_order c →
  in_order (nexts k c) ∧ SLIDES_COUNT (nexts k c) = SLIDES_COUNT c ∧
  currentSlide (nexts k c) = (currentSlide c + Z.of_nat k) `mod` SLIDES_COUNT c.
Proof.
  intros Ho. induction k as [|k (IHo & IHn & IHc)].
  - cbn. split; [done|]. split; [done|].
    rewrite Z.add_0_r, Z.mod_small; [done|apply Ho].
  - change (nexts (S k) c) with (next (nexts k c)).1.
    rewrite next_unfold.
    destruct (step_in_order 1 (nexts k c) IHo) as (_ & Ho' & Hn' & Hc'); [lia|].
    split; [done|]. split; [congruence|].
    rewrite Hc', IHc, IHn, Zplus_mod_idemp_l. f_equal. lia.
Qed.

(** X10: on a carousel in working order navigation is cyclic. [k] calls of
    [next()] move the index by [k] modulo the count, so as many calls as
    there are slides bring it back; [next()] from the last slide shows the
    first, [prev()] from the first shows the last, and [prev()] undoes
    [next()] on the index, and conversely. *)
Theorem cyclic_navigation (c : Carousel) (k : nat) :
  in_order c →
  currentSlide (nexts k c) = (currentSlide c + Z.of_nat k) `mod` SLIDES_COUNT c ∧
  currentSlide (nexts (Z.to_nat (SLIDES_COUNT c)) c) = currentSlide c ∧
  (currentSlide c = SLIDES_COUNT c - 1 → currentSlide (next c).1 = 0) ∧
  (currentSlide c = 0 → currentSlide (prev c).1 = SLIDES_COUNT c - 1) ∧
  currentSlide (prev (next c).1).1 = currentSlide c ∧
  currentSlide (next (prev c).1).1 = currentSlide c.
Proof.
  intros Ho. pose proof (io_nonempty _ Ho) as Hpos.
  pose proof (io_index _ Ho) as Hidx.
  destruct (step_in_order 1 c Ho) as (_ & Hon & Hnn & Hcn); [lia|].
  destruct (step_in_order (-1) c Ho) as (_ & Hop & Hnp & Hcp); [lia|].
  rewrite <- next_unfold in Hon, Hnn, Hcn.
  change (currentSlide c + -1) with (currentSlide c - 1) in Hop, Hnp, Hcp.
  rewrite <- prev_unfold in Hop, Hnp, Hcp.
  split_and!.
  - apply nexts_index, Ho.
  - destruct (nexts_index (Z.to_nat (SLIDES_COUNT c)) c Ho) as (_ & _ & ->).
    rewrite Z2Nat.id by lia.
    rewrite <- (Z.mul_1_l (SLIDES_COUNT c)) at 1.
    rewrite Z.mod_add by lia. by apply Z.mod_small.
  - intros Hlast. rewrite Hcn, Hlast.
    replace (SLIDES_COUNT c - 1 + 1) with (SLIDES_COUNT c) by lia.
    apply Z.mod_same. lia.
  - intros Hfirst. rewrite Hcp, Hfirst.
    replace (0 - 1) with (SLIDES_COUNT c - 1 + -1 * SLIDES_COUNT c) by lia.
    rewrite Z.mod_add by lia. apply Z.mod_small. lia.
  - destruct (step_in_order (-1) (next c).1 Hon) as (_ & _ & _ & H); [lia|].
    change (currentSlide (next c).1 + -1) with (currentSlide (next c).1 - 1) in H.
    rewrite <- prev_unfold in H. rewrite H, Hnn, Hcn.
    rewrite Zminus_mod_idemp_l.
    replace (currentSlide c + 1 - 1) with (currentSlide c) by lia.
    by apply Z.mod_small.
  - destruct (step_in_order 1 (prev c).1 Hop) as (_ & _ & _ & H); [lia|].
    rewrite <- next_unfold in H. rewrite H, Hnp, Hcp.
    rewrite Zplus_mod_idemp_l.
    replace (currentSlide c - 1 + 1) with (currentSlide c) by lia.
    by apply Z.mod_small.
Qed.

Lemma cyclic_navigation_witness :
  currentSlide (nexts 4 (super (started 3))) = 1 ∧
  currentSlide (nexts 3 (super (started 3))) = 0.
Proof.
  destruct (cyclic_navigation (super (started 3)) 4) as (H1 & H2 & _).
  - apply started_in_order. lia.
  - split; [exact H1|exact H2].
Defined.

(** ** Hovering *)

(** X11: with [pauseOnHover], entering a playing carousel cancels its
    interval and leaving it schedules a new one: in between nothing is
    scheduled, afterwards the carousel plays again with exactly one interval
    under a new handle, and slides, index, indicators and icons are as
    before. Without [pauseOnHover] neither handler does anything. *)
Theorem hover_round_trip (c : Carousel) :
  timer_inv c →
  isPlaying c = true →
  (pauseOnHover c = true →
   isPlaying (mouseenterHandler c) = false ∧
   timers (mouseenterHandler c) = [] ∧
   isPlaying (mouseleaveHandler (mouseenterHandler c)) = true ∧
   timerId (mouseleaveHandler (mouseenterHandler c)) = Some (next_timer c) ∧
   timers (mouseleaveHandler (mouseenterHandler c)) = [next_timer c] ∧
   same_page c (mouseleaveHandler (mouseenterHandler c))) ∧
  (pauseOnHover c = false →
   mouseenterHandler c = c ∧ mouseleaveHandler c = c).
Proof.
  intros Hinv Hp. split; intros Hh.
  - unfold mouseenterHandler. rewrite Hh, Hp. cbn [andb].
    destruct (pause_fields c) as (Hp1 & Hid1 & _ & _ & _ & Hh1 & _).
    pose proof (pause_inv c Hinv) as Hinv1.
    unfold mouseleaveHandler. rewrite Hh1, Hh, Hp1. cbn [andb negb].
    destruct (startTimer_timers _ Hinv1) as [Hid Ht].
    assert (next_timer (pause c) = next_timer c) as Hnx
      by (unfold pause; by destruct (timerId c)).
    rewrite Hnx in Hid, Ht.
    split_and!; try done.
    + by apply pause_timers.
    + destruct (pause_page c), (play_page (pause c)). split; congruence.
  - unfold mouseenterHandler, mouseleaveHandler. by rewrite Hh.
Qed.

Lemma hover_round_trip_witness :
  isPlaying (mouseenterHandler (super (started 3))) = false ∧
  timers (mouseleaveHandler (mouseenterHandler (super (started 3)))) = [2%positive].
Proof.
  destruct (hover_round_trip (super (started 3))) as [H _].
  - split; [reflexivity| |reflexivity]. intros _. reflexivity.
  - reflexivity.
  - destruct (H eq_refl) as (H1 & _ & _ & _ & H2 & _).
    split; [exact H1|exact H2].
Defined.

(** ** The timer *)

(** X12: a carousel that is not playing stands still: in every state it can
    reach with [isPlaying] false no interval is scheduled, so a period that
    elapses changes nothing at all; in particular nothing moves after
    [pause()], [next()] or [prev()] until [play()] is called. *)
Theorem not_playing_stands_still (s : SwipeCarousel) :
  reachable s →
  isPlaying (super s) = false →
  timers (super s) = [] ∧ tick (super s) = super s ∧
  tick (pause (super s)) = pause (super s).
Proof.
  intros Hr Hp. apply reachable_inv in Hr.
  assert (timers (super s) = []) as Ht.
  { rewrite (ti_timers _ Hr). destruct (timerId (super s)) eqn:E; [|done].
    rewrite (ti_playing _ Hr) in Hp; [done|by eexists]. }
  split; [done|]. unfold tick. by rewrite Ht, (pause_timers _ Hr).
Qed.

Lemma not_playing_stands_still_witness :
  tick (super (run [Base CallInit; Base CallPause] (fresh 3))) =
  super (run [Base CallInit; Base CallPause] (fresh 3)).
Proof.
  destruct (not_playing_stands_still (run [Base CallInit; Base CallPause] (fresh 3)))
    as (_ & H & _).
  - exists no_options, (page 3), (fresh 3), [Base CallInit; Base CallPause].
    split; reflexivity.
  - reflexivity.
  - exact H.
Defined.

(** X13: while the carousel plays, a period that elapses shows the next
    slide, wrapping after the last, and, unlike [next()], leaves the
    carousel playing under the same handle with its interval scheduled. *)
Theorem auto_advance_keeps_playing (s : SwipeCarousel) (id : positive) :
  reachable s →
  in_order (super s) →
  timerId (super s) = Some id →
  currentSlide (tick (super s)) =
    (currentSlide (super s) + 1) `mod` SLIDES_COUNT (super s) ∧
  isPlaying (tick (super s)) = true ∧
  timerId (tick (super s)) = Some id ∧
  timers (tick (super s)) = [id] ∧
  in_order (tick (super s)).
Proof.
  intros Hr Ho Hid. apply reachable_inv in Hr.
  assert (timers (super s) = [id]) as Ht by (by rewrite (ti_timers _ Hr), Hid).
  rewrite (tick_single _ id Ht).
  pose proof (gotoNth_control (currentSlide (super s) + 1) (super s)) as Hs.
  destruct (io_indicators _ Ho) as (ch & Hch & _).
  assert (- SLIDES_COUNT (super s) ≤ currentSlide (super s) + 1) as Hge
    by (destruct Ho; lia).
  split_and!.
  - by rewrite (gotoNth_shown _ _ ch Ho Hch Hge).
  - rewrite (sc_isPlaying _ _ Hs). apply (ti_playing _ Hr). by eexists.
  - by rewrite (sc_timerId _ _ Hs).
  - by rewrite (sc_timers _ _ Hs).
  - rewrite (gotoNth_shown _ _ ch Ho Hch Hge). by apply shown_in_order.
Qed.

Lemma auto_advance_keeps_playing_witness :
  currentSlide (tick (super (started 3))) = 1 ∧
  isPlaying (tick (super (started 3))) = true.
Proof.
  destruct (auto_advance_keeps_playing (started 3) 1%positive) as (H1 & H2 & _).
  - exists no_options, (page 3), (fresh 3), [Base CallInit].
    split; reflexivity.
  - apply started_in_order. lia.
  - reflexivity.
  - split; [exact H1|exact H2].
Defined.

(** ** What never changes *)

Lemma same_config_refl c : same_config c c.
Proof. by split. Qed.

Lemma same_config_trans c1 c2 c3 :
  same_config c1 c2 → same_config c2 c3 → same_config c1 c3.
Proof. intros [] []. split; congruence. Qed.

Lemma control_config c c' : same_control c c' → same_config c c'.
Proof. intros []. by split. Qed.

Lemma pause_config c : same_config c (pause c).
Proof. unfold pause. destruct (timerId c); by split. Qed.

Lemma play_config c : same_config c (play c).
Proof. unfold play, startTimer. destruct (timerId c); by split. Qed.

Lemma init_config c : same_config c (init c).
Proof.
  destruct (init_fields c) as (Hs & Hn & _ & Hh & Hi & _). split; congruence.
Qed.

Lemma gotoNth_config n c : same_config c (gotoNth n c).1.
Proof. apply control_config, gotoNth_control. Qed.

Lemma next_config c : same_config c (next c).1.
Proof.
  rewrite next_unfold.
  eapply same_config_trans; [apply pause_config|apply gotoNth_config].
Qed.

Lemma prev_config c : same_config c (prev c).1.
Proof.
  rewrite prev_unfold.
  eapply same_config_trans; [apply pause_config|apply gotoNth_config].
Qed.

Lemma pausePlay_config c : same_config c (pausePlay c).1.
Proof.
  destruct (pausePlay_state c) as (pa & pl & ->).
  destruct (isPlaying c).
  - destruct (pause_config c). by split.
  - destruct (play_config c). by split.
Qed.

Lemma handle_config ev c : same_config c (handle ev c).1.
Proof.
  destruct ev; cbn [handle].
  - apply init_config.
  - apply next_config.
  - apply prev_config.
  - apply pause_config.
  - apply play_config.
  - apply pausePlay_config.
  - apply prev_config.
  - apply next_config.
  - apply pausePlay_config.
  - destruct (indicatorClick_state target c) as [-> | (t & _ & _ & ->)];
      [apply same_config_refl|].
    eapply same_config_trans; [apply pause_config|apply gotoNth_config].
  - destruct (keydownHandler_state code c) as [-> | [-> | [-> | ->]]];
      [apply prev_config|apply next_config|apply pausePlay_config|
       apply same_config_refl].
  - unfold modify, mouseenterHandler. cbn [fst].
    case_match; [apply pause_config|apply same_config_refl].
  - unfold modify, mouseleaveHandler. cbn [fst].
    case_match; [apply play_config|apply same_config_refl].
  - destruct (fire_state id c) as [-> | ->];
      [apply gotoNth_config|apply same_config_refl].
Qed.

Lemma inherited_threshold {A} (m : M Carousel A) s :
  swipeThreshold (inherited m s).1 = swipeThreshold s.
Proof. unfold inherited. by destruct (m (super s)). Qed.

Lemma swipe_handle_threshold ev s :
  swipeThreshold (swipe_handle ev s).1 = swipeThreshold s.
Proof.
  destruct ev as [ev|x|x|x|x]; cbn [swipe_handle].
  - destruct ev; try apply inherited_threshold. done.
  - done.
  - unfold touchEndHandler, handleSwipe. unfold_m. cbn.
    repeat case_match; by rewrite ?inherited_threshold.
  - done.
  - unfold mouseUpHandler, handleSwipe. unfold_m. cbn.
    repeat case_match; by rewrite ?inherited_threshold.
Qed.

(** X14: nothing that happens to a carousel changes what its constructor
    fixed: over every run of calls and events the [pauseOnHover] setting,
    the interval, the slide count, the number of slides and the swipe
    threshold stay what they were. *)
Theorem configuration_is_fixed (evs : list SwipeEvent) (s : SwipeCarousel) :
  same_config (super s) (super (run evs s)) ∧
  swipeThreshold (run evs s) = swipeThreshold s.
Proof.
  revert s. induction evs as [|ev evs IH]; intros s.
  - split; [apply same_config_refl|done].
  - change (run (ev :: evs) s) with (run evs (swipe_handle ev s).1).
    destruct (IH (swipe_handle ev s).1) as [Hc Ht].
    split.
    + eapply same_config_trans; [|exact Hc].
      destruct (swipe_handle_super ev s) as [-> | [ev' ->]];
        [apply same_config_refl|apply handle_config].
    + by rewrite Ht, swipe_handle_threshold.
Qed.

(** ** Swipes that navigate *)

Lemma inherited_snd {A} (m : M Carousel A) s :
  (inherited m s).2 = (m (super s)).2.
Proof. unfold inherited. by destruct (m (super s)). Qed.

(** X15: a press and a release at least the threshold apart, by mouse or by
    touch, act as the navigation they stand for: on a carousel in working
    order the gesture returns, the carousel is paused with nothing
    scheduled, and the index has moved by one modulo the count, forward
    when the pointer moved left ([x0 > x1]) and backward otherwise. *)
Theorem swipe_navigates (s : SwipeCarousel) (x0 x1 : Z) :
  reachable s →
  in_order (super s) →
  swipeThreshold s ≤ Z.abs (x0 - x1) →
  mouseUpHandler x1 (mouseDownHandler x0 s).1 =
    touchEndHandler x1 (touchStartHandler x0 s).1 ∧
  (mouseUpHandler x1 (mouseDownHandler x0 s).1).2 = Normal tt ∧
  isPlaying (super (mouseUpHandler x1 (mouseDownHandler x0 s).1).1) = false ∧
  timerId (super (mouseUpHandler x1 (mouseDownHandler x0 s).1).1) = None ∧
  timers (super (mouseUpHandler x1 (mouseDownHandler x0 s).1).1) = [] ∧
  currentSlide (super (mouseUpHandler x1 (mouseDownHandler x0 s).1).1) =
    (currentSlide (super s) + (if 0 <? x0 - x1 then 1 else -1))
      `mod` SLIDES_COUNT (super s).
Proof.
  intros Hr Ho Hge. apply reachable_inv in Hr.
  split; [reflexivity|].
  change (mouseUpHandler x1 (mouseDownHandler x0 s).1)
    with (handleSwipe (set_endX x1 (set_startX x0 s))).
  rewrite handleSwipe_classify. unfold classify. cbn [startX endX swipeThreshold set_endX set_startX].
  rewrite (proj2 (Z.ltb_ge _ _) Hge).
  destruct (0 <? x0 - x1).
  - rewrite inherited_snd, inherited_super. cbn [super set_endX set_startX].
    rewrite next_unfold.
    destruct (step_after_pause 1 (super s) Hr) as (Hp & Hid & Ht & Hi & Hn); [lia|].
    specialize (Hn Ho). specialize (Hi Hn). split_and!; done.
  - rewrite inherited_snd, inherited_super. cbn [super set_endX set_startX].
    rewrite prev_unfold.
    change (currentSlide (super s) - 1) with (currentSlide (super s) + -1).
    destruct (step_after_pause (-1) (super s) Hr) as (Hp & Hid & Ht & Hi & Hn); [lia|].
    specialize (Hn Ho). specialize (Hi Hn). split_and!; done.
Qed.

Lemma swipe_navigates_witness :
  (mouseUpHandler 20 (mouseDownHandler 180 (started 3)).1).2 = Normal tt ∧
  currentSlide (super (mouseUpHandler 20 (mouseDownHandler 180 (started 3)).1).1) = 1.
Proof.
  destruct (swipe_navigates (started 3) 180 20) as (_ & H1 & _ & _ & _ & H2).
  - exists no_options, (page 3), (fresh 3), [Base CallInit].
    split; reflexivity.
  - apply started_in_order. lia.
  - vm_compute. discriminate.
  - split; [exact H1|exact H2].
Defined.
